(** * DjangoQL completion: name resolution, cursor context and suggestions

    A shallow embedding of [src/index.js] (the [DjangoQL] object of the
    djangoql-completion widget) together with the properties of its
    specification.

    Conventions of the embedding:
    - a JavaScript string is a [string]; each [ascii] stands for one code
      unit (the no-break space U+00A0 of [whitespaceRegex] is code 160);
    - a JavaScript object used as a dictionary ([models], a model's field
      table) is a [gmap] with string keys; [Object.keys] is the enumeration
      of that map, so the order in which fields are offered is not that
      of the schema and the properties below speak of membership only.
      A lookup sees the properties the schema defines; those every
      object inherits from [Object.prototype] are outside the model;
    - [null]/[undefined] are [None]; truthiness of a string-or-null value
      is [truthy]: the empty string is falsy like [null];
    - a [TypeError] raised by reading a property of [undefined] is the
      [Throw] outcome of the [js] monad;
    - the engine is a record passed from state to state; what the widget
      draws (the completion box, the textarea) is no part of it beyond
      the text and the selection of the textarea. *)

From Stdlib Require Import String Ascii List ZArith Bool Lia.
From stdpp Require Import base option gmap strings list.

Local Open Scope string_scope.
Local Open Scope list_scope.

(* ================================================================== *)
(** ** Outcomes of JavaScript code that may throw *)

Inductive js (A : Type) : Type :=
| Ret (a : A)
| Throw.
Arguments Ret {A} a.
Arguments Throw {A}.

#[global] Instance js_ret : MRet js := fun A a => Ret a.

#[global] Instance js_bind : MBind js := fun A B k m =>
  match m with
  | Ret a => k a
  | Throw => Throw
  end.

(** [o[k]] where [o] itself may be [undefined]: reading a property of
    [undefined] throws. *)
Definition js_prop {A B : Type} (o : option A) (get : A -> B) : js B :=
  match o with
  | Some a => Ret (get a)
  | None => Throw
  end.

(* ================================================================== *)
(** ** String primitives of JavaScript used by the source *)

Module JsString.

(** [s.slice(a, b)] for non-negative [a], [b]. *)
Definition slice (a b : nat) (s : string) : string := substring a (b - a) s.

(** [s.slice(n)] for non-negative [n]. *)
Fixpoint drop (n : nat) (s : string) : string :=
  match n, s with
  | O, _ => s
  | S _, EmptyString => EmptyString
  | S n', String _ rest => drop n' rest
  end.

(** [s.split('.')]: never empty, [''.split('.')] is [['']]. *)
Fixpoint split_dot (s : string) : list string :=
  match s with
  | EmptyString => [EmptyString]
  | String c rest =>
      if Ascii.eqb c "." then EmptyString :: split_dot rest
      else match split_dot rest with
           | [] => [String c EmptyString]
           | h :: t => String c h :: t
           end
  end.

(** [parts.join('.')]. *)
Definition join_dot (parts : list string) : string := String.concat "." parts.

(** [s.lastIndexOf(p, 0) === 0]: [p] is a prefix of [s]. *)
Definition starts_with (p s : string) : bool := String.prefix p s.

(** [s.indexOf(p) >= 0]: [p] occurs somewhere in [s]. *)
Fixpoint includes (p s : string) : bool :=
  String.prefix p s ||
  match s with
  | EmptyString => false
  | String _ rest => includes p rest
  end.

(** [s.toLowerCase()] on code units below 256: the letters A-Z and the
    capital letters of Latin-1 (U+00C0 to U+00DE without the
    multiplication sign U+00D7) move up by 32. *)
Definition lower_char (c : ascii) : ascii :=
  let n := nat_of_ascii c in
  if ((65 <=? n)%nat && (n <=? 90)%nat)
     || ((192 <=? n)%nat && (n <=? 222)%nat && negb (n =? 215)%nat)
  then ascii_of_nat (n + 32) else c.

Fixpoint toLowerCase (s : string) : string :=
  match s with
  | EmptyString => EmptyString
  | String c rest => String (lower_char c) (toLowerCase rest)
  end.

(** The double-quote character (code 34). *)
Definition dquote : ascii := Ascii false true false false false true false false.

(** [s[0]] is the double-quote character. *)
Definition starts_with_quote (s : string) : bool :=
  match s with
  | String c _ => Ascii.eqb c dquote
  | EmptyString => false
  end.

End JsString.

(* ================================================================== *)
(** ** The schema (introspections) *)

Inductive FieldType : Type :=
| TInt | TFloat | TStr | TBool | TDate | TDateTime | TRelation | TUnknown.

#[global] Instance FieldType_eq_dec : EqDecision FieldType.
Proof. solve_decision. Defined.

(** [options]: absent/null, [true] (ask the suggestions API), or an
    inline array. *)
Inductive FieldOptions : Type :=
| NoOptions
| RemoteOptions
| InlineOptions (items : list string).

Record FieldDef : Type := mkField {
  ftype : FieldType;
  relation : option string;
  options : FieldOptions;
  nullable : bool;
}.

(** Truthiness of [field.options]: an array, even an empty one, and
    [true] are truthy. *)
Definition has_options (f : FieldDef) : bool :=
  match options f with
  | NoOptions => false
  | _ => true
  end.

(** Truthiness of a value that is a string or [null]. *)
Definition truthy (v : option string) : bool :=
  match v with
  | Some s => negb (String.eqb s EmptyString)
  | None => false
  end.

(** Property key used when a string-or-null value indexes an object:
    [o[null]] reads the property named [null]. *)
Definition js_key (v : option string) : string :=
  match v with
  | Some s => s
  | None => "null"
  end.

Abbreviation Model := (gmap string FieldDef).
Abbreviation Models := (gmap string (gmap string FieldDef)).

(* ================================================================== *)
(** ** Tokens, suggestions, contexts *)

Inductive TokenKind : Type :=
| DOT | COMMA | OR | AND | NOT | IN | STARTSWITH | ENDSWITH
| TRUE | FALSE | NONE | NAME | STRING_VALUE | INT_VALUE | FLOAT_VALUE
| PAREN_L | PAREN_R | EQUALS | NOT_EQUALS | GREATER | GREATER_EQUAL
| LESS | LESS_EQUAL | CONTAINS | NOT_CONTAINS.

#[global] Instance TokenKind_eq_dec : EqDecision TokenKind.
Proof. solve_decision. Defined.

(** A token as [lexAll] leaves it: [start] and [end] are set from the
    lexer index after the match. *)
Record Token : Type := mkToken {
  tok_name : TokenKind;
  tok_value : string;
  tok_start : nat;
  tok_end : nat;
}.

Record Suggestion : Type := mkSuggestion {
  text : string;
  snippetBefore : string;
  snippetAfter : string;
  suggestionText : string;
}.

(** [suggestion(text, snippetBefore, snippetAfter, explanation)]. *)
Definition suggestion (t before after : string) (explanation : option string)
  : Suggestion :=
  {| text := t;
     snippetBefore := before;
     snippetAfter := after;
     suggestionText :=
       match explanation with
       | Some e => t +:+ "<i>" +:+ e +:+ "</i>"
       | None => t
       end |}.

Inductive Scope : Type := ScopeField | ScopeComparison | ScopeValue | ScopeLogical.

(** The object returned by [resolveName]. Entries of [modelStack] are
    model ids, or [null] when a relation field carries no target. *)
Record Resolved : Type := mkResolved {
  res_modelStack : list (option string);
  res_model : option string;
  res_field : option string;
}.

(** The object returned by [getContext]. *)
Record Context : Type := mkContext {
  ctx_prefix : string;
  ctx_scope : option Scope;
  ctx_model : option string;
  ctx_field : option string;
  ctx_currentFullToken : option Token;
  ctx_modelStack : list (option string);
}.

(* ================================================================== *)
(** ** The cache of remotely loaded field values *)

(** An entry of [suggestionsCache]; absent properties read as falsy. *)
Record CacheEntry : Type := mkEntry {
  items : option (list string);
  page : option Z;
  has_next : bool;
  entry_loading : bool;
}.

(** The object literal [{}]. *)
Definition empty_entry : CacheEntry :=
  {| items := None; page := None; has_next := false; entry_loading := false |}.

(** A page as the suggestions API delivers it: [{items, page, has_next}]. *)
Record PageData : Type := mkPage {
  data_items : list string;
  data_page : Z;
  data_has_next : bool;
}.

Module LRUCache.

(** Modelled from the spec: the [LRUCache] class, which [index.js]
    imports from [./lru-cache]. The spec describes it as a store of
    bounded capacity keyed by strings, which evicts the least recently
    used key when an insertion exceeds the capacity. Entries are kept
    most recently used first. *)
Record t (V : Type) : Type := mk {
  capacity : nat;
  entries : list (string * V);
}.
Arguments mk {V} capacity entries.
Arguments capacity {V} _.
Arguments entries {V} _.

(** Modelled from the spec: [new LRUCache(size)] is an empty store of
    capacity [size]. *)
Definition create {V : Type} (size : nat) : t V := mk size [].

(** Modelled from the spec: the value stored under a key, if any. *)
Fixpoint find {V : Type} (k : string) (l : list (string * V)) : option V :=
  match l with
  | [] => None
  | (k', v) :: rest => if String.eqb k k' then Some v else find k rest
  end.

(** Modelled from the spec: the entries without those of a key. *)
Fixpoint remove {V : Type} (k : string) (l : list (string * V))
  : list (string * V) :=
  match l with
  | [] => []
  | (k', v) :: rest =>
      if String.eqb k k' then remove k rest else (k', v) :: remove k rest
  end.

(** Modelled from the spec: a lookup that hits makes the key the most
    recently used one. *)
Definition get {V : Type} (k : string) (c : t V) : option V * t V :=
  match find k (entries c) with
  | Some v => (Some v, mk (capacity c) ((k, v) :: remove k (entries c)))
  | None => (None, c)
  end.

(** Modelled from the spec: an insertion makes the key the most
    recently used one and drops the least recently used keys beyond
    the capacity. *)
Definition set {V : Type} (k : string) (v : V) (c : t V) : t V :=
  mk (capacity c) (firstn (capacity c) ((k, v) :: remove k (entries c))).

(** Modelled from the spec: what a lookup would return, leaving the
    order of use untouched. *)
Definition peek {V : Type} (k : string) (c : t V) : option V :=
  find k (entries c).

End LRUCache.

(* ================================================================== *)
(** ** The engine state (the [DjangoQL] object) *)

Record Textarea : Type := mkTextarea {
  value : string;
  selectionStart : nat;
  selectionEnd : nat;
}.

(** The request handed to [getJson] by [loadFieldOptions]: the query
    parameters and the cache key captured by the [success] callback. *)
Record Request : Type := mkRequest {
  req_field : string;
  req_search : string;
  req_page : option Z;
  req_cacheKey : string;
}.

Record DjangoQL : Type := mkDjangoQL {
  currentModel : option string;
  models : Models;
  suggestionsAPIUrl : option string;
  (** [this.lexer.setInput(text).lexAll()] *)
  lexer : string -> list Token;
  prefix : string;
  suggestions : list Suggestion;
  selected : option nat;
  valuesCaseSensitive : bool;
  highlightCaseSensitive : bool;
  completionEnabled : bool;
  textarea : Textarea;
  suggestionsCache : LRUCache.t CacheEntry;
  loading : bool;
  (** the call held back by [debouncedLoadFieldOptions], with its argument *)
  debouncedLoad : option bool;
  (** [this.request], the fetch in flight *)
  request : option Request;
}.

(* ================================================================== *)
(** ** [resolveName] *)

(** The body of the [for] loop over [nameParts], from the part at hand
    to the end. *)
Fixpoint resolveParts (ms : Models) (nameParts : list string)
    (modelStack : list (option string)) (model field : option string)
  : js Resolved :=
  match nameParts with
  | [] => Ret (mkResolved modelStack model field)
  | part :: rest =>
      f ← js_prop (ms !! js_key model) (fun fields => fields !! part);
      match f with
      | None => Ret (mkResolved modelStack None None)
      | Some fd =>
          if bool_decide (ftype fd = TRelation)
          then resolveParts ms rest (modelStack ++ [relation fd])
                 (relation fd) None
          else resolveParts ms rest modelStack model (Some part)
      end
  end.

Definition resolveName (this : DjangoQL) (name : string) : js Resolved :=
  let nameParts := JsString.split_dot name in
  let model := currentModel this in
  if truthy model
  then resolveParts (models this) nameParts [model] model None
  else Ret (mkResolved [] model None).

(** The loop of [resolveName] run over [nameParts] when it neither
    breaks nor throws: every part is a field of the model at hand. The
    result is the stack, model and field the loop has reached. *)
Fixpoint walk (ms : Models) (nameParts : list string)
    (modelStack : list (option string)) (model field : option string)
  : option (list (option string) * option string * option string) :=
  match nameParts with
  | [] => Some (modelStack, model, field)
  | part :: rest =>
      match ms !! js_key model with
      | None => None
      | Some fields =>
          match fields !! part with
          | None => None
          | Some fd =>
              if bool_decide (ftype fd = TRelation)
              then walk ms rest (modelStack ++ [relation fd]) (relation fd) None
              else walk ms rest modelStack model (Some part)
          end
      end
  end.

(** The models reached from the current model by the parts [nameParts]. *)
Definition reaches (this : DjangoQL) (nameParts : list string)
    (modelStack : list (option string)) (model : option string) : Prop :=
  exists field,
    walk (models this) nameParts [currentModel this] (currentModel this) None
    = Some (modelStack, model, field).

(** The schema invariant: the current model and the target of every
    relation field are keys of [models]. *)
Definition schema_closed (this : DjangoQL) : Prop :=
  is_Some (models this !! js_key (currentModel this))
  /\ forall m fields f fd,
       models this !! m = Some fields ->
       fields !! f = Some fd ->
       ftype fd = TRelation ->
       is_Some (models this !! js_key (relation fd)).

(* ================================================================== *)
(** ** [getContext] *)

(** Characters of [whitespaceRegex]: space, tab, vertical tab, form feed
    and the no-break space. *)
Definition is_whitespace (c : ascii) : bool :=
  let n := nat_of_ascii c in
  (n =? 32)%nat || (n =? 9)%nat || (n =? 11)%nat || (n =? 12)%nat
  || (n =? 160)%nat.

Fixpoint whitespace_run (s : string) : nat :=
  match s with
  | String c rest => if is_whitespace c then S (whitespace_run rest) else O
  | EmptyString => O
  end.

(** [prefix.match(whitespaceRegex)]: the length of the first run of
    whitespace found anywhere in the string, [None] when there is none. *)
Fixpoint whitespace_match (s : string) : option nat :=
  match s with
  | EmptyString => None
  | String c rest =>
      if is_whitespace c then Some (S (whitespace_run rest))
      else whitespace_match rest
  end.

Definition is_logical (k : TokenKind) : bool :=
  match k with
  | AND | OR => true
  | _ => false
  end.

Definition is_comparison (k : TokenKind) : bool :=
  match k with
  | EQUALS | NOT_EQUALS | CONTAINS | NOT_CONTAINS
  | GREATER_EQUAL | GREATER | LESS_EQUAL | LESS => true
  | _ => false
  end.

Definition is_kind (k : TokenKind) (t : Token) : bool :=
  bool_decide (tok_name t = k).

(** The tokens before the one under the cursor, and [currentFullToken]. *)
Definition cursorTokens (this : DjangoQL) (text : string) (cursorPos : nat)
  : list Token * option Token :=
  let tokens := lexer this (JsString.slice 0 cursorPos text) in
  let allTokens := lexer this text in
  match last tokens with
  | Some t =>
      if (cursorPos <=? tok_end t)%nat
      then (removelast tokens, allTokens !! (length tokens - 1)%nat)
      else (tokens, None)
  | None => (tokens, None)
  end.

Definition lastTokenOf (tokens : list Token) : option Token := last tokens.

Definition nextToLastTokenOf (tokens : list Token) : option Token :=
  if (1 <? length tokens)%nat then tokens !! (length tokens - 2)%nat else None.

(** The text between the last token and the cursor. *)
Definition rawPrefix (lastToken : option Token) (text : string)
    (cursorPos : nat) : string :=
  JsString.slice (from_option tok_end 0%nat lastToken) cursorPos text.

(** [prefix] with the whitespace match and a lone left paren removed,
    and whether there was a whitespace match. *)
Definition cursorPrefix (lastToken : option Token) (text : string)
    (cursorPos : nat) : string * bool :=
  let prefix := rawPrefix lastToken text cursorPos in
  let whitespace := whitespace_match prefix in
  let prefix :=
    match whitespace with
    | Some n => JsString.drop n prefix
    | None => prefix
    end in
  let prefix := if String.eqb prefix "(" then EmptyString else prefix in
  (prefix, bool_decide (is_Some whitespace)).

(** What [getContext] knows when it reaches the scope dispatch. *)
Record Cursor : Type := mkCursor {
  cur_lastToken : option Token;
  cur_nextToLastToken : option Token;
  cur_currentFullToken : option Token;
  cur_prefix : string;
  cur_whitespace : bool;
}.

Definition cursor (this : DjangoQL) (text : string) (cursorPos : nat)
  : Cursor :=
  let '(tokens, currentFullToken) := cursorTokens this text cursorPos in
  let lastToken := lastTokenOf tokens in
  let '(prefix, whitespace) := cursorPrefix lastToken text cursorPos in
  mkCursor lastToken (nextToLastTokenOf tokens) currentFullToken
    prefix whitespace.

(** The guard of the branch that sets [scope = 'field']. *)
Definition fieldGuard (c : Cursor) : bool :=
  match cur_lastToken c with
  | None => true
  | Some lt =>
      (is_logical (tok_name lt) && cur_whitespace c)
      || (String.eqb (cur_prefix c) "." && negb (cur_whitespace c))
      || (is_kind PAREN_L lt
          && match cur_nextToLastToken c with
             | None => true
             | Some nt => is_logical (tok_name nt)
             end)
  end.

(** The branches of the [if ... else if] chain, in its order. The value
    and comparison branches carry the [NAME] token they resolve. *)
Inductive Branch : Type :=
| AfterParenBranch
| FieldBranch
| ValueBranch (nextToLastToken : Token)
| ComparisonBranch (lastToken : Token)
| LogicalBranch
| NoBranch.

(** Guards of the value, comparison and logical branches; the first two
    hand over the [NAME] token the branch resolves. *)
Definition valueGuard (c : Cursor) : option Token :=
  match cur_lastToken c, cur_nextToLastToken c with
  | Some lt, Some nt =>
      if cur_whitespace c && is_kind NAME nt && is_comparison (tok_name lt)
      then Some nt else None
  | _, _ => None
  end.

Definition comparisonGuard (c : Cursor) : option Token :=
  match cur_lastToken c with
  | Some lt => if cur_whitespace c && is_kind NAME lt then Some lt else None
  | None => None
  end.

Definition logicalGuard (c : Cursor) : bool :=
  match cur_lastToken c with
  | Some lt =>
      cur_whitespace c
      && (is_kind PAREN_R lt || is_kind INT_VALUE lt
          || is_kind FLOAT_VALUE lt || is_kind STRING_VALUE lt)
  | None => false
  end.

Definition dispatch (c : Cursor) : Branch :=
  if String.eqb (cur_prefix c) ")" && negb (cur_whitespace c)
  then AfterParenBranch
  else if fieldGuard c then FieldBranch
  else
    match valueGuard c with
    | Some nt => ValueBranch nt
    | None =>
        match comparisonGuard c with
        | Some lt => ComparisonBranch lt
        | None => if logicalGuard c then LogicalBranch else NoBranch
        end
    end.

(** In the field branch, a bare dot is widened to the text from the
    start of the last token to the cursor. *)
Definition fieldPrefix (c : Cursor) (text : string) (cursorPos : nat)
  : js string :=
  if String.eqb (cur_prefix c) "."
  then js_prop (cur_lastToken c)
         (fun lt => JsString.slice (tok_start lt) cursorPos text)
  else Ret (cur_prefix c).

(** The context with no model resolved. *)
Definition unscoped (this : DjangoQL) (c : Cursor) (prefix : string)
    (scope : option Scope) : Context :=
  mkContext prefix scope None None (cur_currentFullToken c)
    [currentModel this].

(** The body of the [scope = 'field'] branch. *)
Definition fieldBranch (this : DjangoQL) (c : Cursor) (text : string)
    (cursorPos : nat) : js Context :=
  prefix ← fieldPrefix c text cursorPos;
  let nameParts := JsString.split_dot prefix in
  if (1 <? length nameParts)%nat
  then
    let prefix := List.last nameParts EmptyString in
    resolvedName ← resolveName this (JsString.join_dot (removelast nameParts));
    if truthy (res_model resolvedName) && negb (truthy (res_field resolvedName))
    then Ret (mkContext prefix (Some ScopeField) (res_model resolvedName) None
                (cur_currentFullToken c) (res_modelStack resolvedName))
    else Ret (unscoped this c prefix None)
  else Ret (mkContext prefix (Some ScopeField) (currentModel this) None
              (cur_currentFullToken c) [currentModel this]).

(** The test deciding whether the leading quote of a value prefix is
    dropped: [this.models[model][field].type === 'str'] or
    [this.models[model][field].options]. *)
Definition quoteStripped (this : DjangoQL) (model field : option string)
  : js bool :=
  fields ← js_prop (models this !! js_key model) (fun fields => fields);
  js_prop (fields !! js_key field)
    (fun fd => bool_decide (ftype fd = TStr) || has_options fd).

(** The body of the branch entered after [NAME <comparison> <space>]. *)
Definition valueBranch (this : DjangoQL) (c : Cursor) (name : string)
  : js Context :=
  let prefix := cur_prefix c in
  resolvedName ← resolveName this name;
  if truthy (res_model resolvedName)
  then
    prefix ←
      (if JsString.starts_with_quote prefix
       then
         strip ← quoteStripped this (res_model resolvedName)
                   (res_field resolvedName);
         Ret (if strip : bool then JsString.drop 1 prefix else prefix)
       else Ret prefix);
    Ret (mkContext prefix (Some ScopeValue) (res_model resolvedName)
           (res_field resolvedName) (cur_currentFullToken c)
           (res_modelStack resolvedName))
  else Ret (unscoped this c prefix None).

(** The body of the branch entered after [NAME <space>]. *)
Definition comparisonBranch (this : DjangoQL) (c : Cursor) (name : string)
  : js Context :=
  resolvedName ← resolveName this name;
  if truthy (res_model resolvedName)
  then Ret (mkContext (cur_prefix c) (Some ScopeComparison)
              (res_model resolvedName) (res_field resolvedName)
              (cur_currentFullToken c) (res_modelStack resolvedName))
  else Ret (unscoped this c (cur_prefix c) None).

Definition getContext (this : DjangoQL) (text : string) (cursorPos : nat)
  : js Context :=
  let c := cursor this text cursorPos in
  match dispatch c with
  | AfterParenBranch => Ret (unscoped this c (cur_prefix c) None)
  | FieldBranch => fieldBranch this c text cursorPos
  | ValueBranch nt => valueBranch this c (tok_value nt)
  | ComparisonBranch lt => comparisonBranch this c (tok_value lt)
  | LogicalBranch => Ret (unscoped this c (cur_prefix c) (Some ScopeLogical))
  | NoBranch => Ret (unscoped this c (cur_prefix c) None)
  end.

(* ================================================================== *)
(** ** Procedures that change the engine *)

(** How a procedure leaves the engine: it returned, or a [TypeError]
    escaped from it. Either way the changes made so far stay. *)
Inductive Outcome : Type :=
| Normal (this : DjangoQL)
| Abrupt (this : DjangoQL).

Definition state_of (o : Outcome) : DjangoQL :=
  match o with
  | Normal this | Abrupt this => this
  end.

(** Evaluate an expression that may throw, in state [this]. *)
Definition evaluating {A : Type} (this : DjangoQL) (m : js A)
    (k : A -> Outcome) : Outcome :=
  match m with
  | Ret a => k a
  | Throw => Abrupt this
  end.

Definition and_then (o : Outcome) (k : DjangoQL -> Outcome) : Outcome :=
  match o with
  | Normal this => k this
  | Abrupt this => Abrupt this
  end.

Definition with_prefix (p : string) (this : DjangoQL) : DjangoQL :=
  mkDjangoQL (currentModel this) (models this) (suggestionsAPIUrl this)
    (lexer this) p (suggestions this) (selected this)
    (valuesCaseSensitive this) (highlightCaseSensitive this)
    (completionEnabled this) (textarea this) (suggestionsCache this)
    (loading this) (debouncedLoad this) (request this).

Definition with_suggestions (l : list Suggestion) (this : DjangoQL)
  : DjangoQL :=
  mkDjangoQL (currentModel this) (models this) (suggestionsAPIUrl this)
    (lexer this) (prefix this) l (selected this)
    (valuesCaseSensitive this) (highlightCaseSensitive this)
    (completionEnabled this) (textarea this) (suggestionsCache this)
    (loading this) (debouncedLoad this) (request this).

Definition with_selected (i : option nat) (this : DjangoQL) : DjangoQL :=
  mkDjangoQL (currentModel this) (models this) (suggestionsAPIUrl this)
    (lexer this) (prefix this) (suggestions this) i
    (valuesCaseSensitive this) (highlightCaseSensitive this)
    (completionEnabled this) (textarea this) (suggestionsCache this)
    (loading this) (debouncedLoad this) (request this).

Definition with_highlightCaseSensitive (b : bool) (this : DjangoQL)
  : DjangoQL :=
  mkDjangoQL (currentModel this) (models this) (suggestionsAPIUrl this)
    (lexer this) (prefix this) (suggestions this) (selected this)
    (valuesCaseSensitive this) b
    (completionEnabled this) (textarea this) (suggestionsCache this)
    (loading this) (debouncedLoad this) (request this).

Definition with_suggestionsCache (c : LRUCache.t CacheEntry)
    (this : DjangoQL) : DjangoQL :=
  mkDjangoQL (currentModel this) (models this) (suggestionsAPIUrl this)
    (lexer this) (prefix this) (suggestions this) (selected this)
    (valuesCaseSensitive this) (highlightCaseSensitive this)
    (completionEnabled this) (textarea this) c
    (loading this) (debouncedLoad this) (request this).

Definition with_loading (b : bool) (this : DjangoQL) : DjangoQL :=
  mkDjangoQL (currentModel this) (models this) (suggestionsAPIUrl this)
    (lexer this) (prefix this) (suggestions this) (selected this)
    (valuesCaseSensitive this) (highlightCaseSensitive this)
    (completionEnabled this) (textarea this) (suggestionsCache this)
    b (debouncedLoad this) (request this).

Definition with_debouncedLoad (d : option bool) (this : DjangoQL)
  : DjangoQL :=
  mkDjangoQL (currentModel this) (models this) (suggestionsAPIUrl this)
    (lexer this) (prefix this) (suggestions this) (selected this)
    (valuesCaseSensitive this) (highlightCaseSensitive this)
    (completionEnabled this) (textarea this) (suggestionsCache this)
    (loading this) d (request this).

Definition with_request (r : option Request) (this : DjangoQL) : DjangoQL :=
  mkDjangoQL (currentModel this) (models this) (suggestionsAPIUrl this)
    (lexer this) (prefix this) (suggestions this) (selected this)
    (valuesCaseSensitive this) (highlightCaseSensitive this)
    (completionEnabled this) (textarea this) (suggestionsCache this)
    (loading this) (debouncedLoad this) r.

(** [this.suggestionsCache.get(key) || {}], with the engine after the
    lookup. *)
Definition cacheGet (key : string) (this : DjangoQL)
  : CacheEntry * DjangoQL :=
  let '(found, cache) := LRUCache.get key (suggestionsCache this) in
  (default empty_entry found, with_suggestionsCache cache this).

Definition cacheSet (key : string) (e : CacheEntry) (this : DjangoQL)
  : DjangoQL :=
  with_suggestionsCache (LRUCache.set key e (suggestionsCache this)) this.

(* ================================================================== *)
(** ** Field options: [getCurrentFieldOptions], [populateFieldOptions],
       [loadFieldOptions] *)

(** [context.field && model[context.field]] with
    [model = this.models[context.model]]: the definition of the field
    under the cursor, if the context names one. *)
Definition contextField (this : DjangoQL) (ctx : Context)
  : js (option FieldDef) :=
  if truthy (ctx_field ctx)
  then js_prop (models this !! js_key (ctx_model ctx))
         (fun model => model !! js_key (ctx_field ctx))
  else Ret None.

Record CurrentFieldOptions : Type := mkFieldOptions {
  fo_cacheKey : option string;
  fo_context : Context;
  fo_options : option (list string);
}.

Definition getCurrentFieldOptions (this : DjangoQL)
  : js (option CurrentFieldOptions) :=
  let input := textarea this in
  ctx ← getContext this (value input) (selectionStart input);
  field ← contextField this ctx;
  match ctx_scope ctx, field with
  | Some ScopeValue, Some fd =>
      match options fd with
      | NoOptions => Ret None
      | InlineOptions l => Ret (Some (mkFieldOptions None ctx (Some l)))
      | RemoteOptions =>
          if truthy (suggestionsAPIUrl this)
          then Ret (Some (mkFieldOptions
                 (Some (js_key (ctx_model ctx) +:+ "." +:+ js_key (ctx_field ctx)
                        +:+ "|" +:+ ctx_prefix ctx))
                 ctx None))
          else Ret None
      end
  | _, _ => Ret None
  end.

(** Truthiness of [entry.page]. *)
Definition page_loaded (e : CacheEntry) : bool :=
  match page e with
  | Some p => negb (p =? 0)%Z
  | None => false
  end.

(** The tail of [populateFieldOptions]: the options become the
    suggestions, each wrapped in quotes when pasted. *)
Definition showOptions (opts : list string) (this : DjangoQL) : DjangoQL :=
  with_suggestions
    (map (fun f => suggestion f (String JsString.dquote EmptyString)
                     (String JsString.dquote EmptyString) None) opts)
    (with_highlightCaseSensitive (valuesCaseSensitive this) this).

Definition populateFieldOptions (loadMore : bool) (this : DjangoQL)
  : Outcome :=
  evaluating this (getCurrentFieldOptions this) (fun fieldOptions =>
  match fieldOptions with
  | None => Normal this
  | Some fo =>
      let prefix := ctx_prefix (fo_context fo) in
      match fo_options fo with
      | Some opts =>
          let opts :=
            if valuesCaseSensitive this
            then List.filter (fun item => JsString.includes prefix item) opts
            else List.filter
                   (fun item =>
                      JsString.includes (JsString.toLowerCase prefix)
                        (JsString.toLowerCase item)) opts in
          Normal (showOptions opts this)
      | None =>
          let this := with_suggestions [] this in
          match fo_cacheKey fo with
          | None => Normal this
          | Some key =>
              let '(cached, this) := cacheGet key this in
              let opts := default [] (items cached) in
              let this :=
                if negb (entry_loading cached)
                   && (negb (page_loaded cached)
                       || (loadMore && has_next cached))
                then with_debouncedLoad (Some loadMore) this
                else this in
              match opts with
              | [] => Normal this
              | _ :: _ => Normal (showOptions opts this)
              end
          end
      end
  end).

(** The [success] callback that [loadFieldOptions] hands to [getJson],
    closed over the cache key of the request. *)
Definition loadSuccess (cacheKey : string) (data : PageData)
    (this : DjangoQL) : Outcome :=
  let '(cache, this) := cacheGet cacheKey this in
  if negb (data_page data - 1 =? default 0 (page cache))%Z
  then Normal this
  else
    let cachedData :=
      {| items := Some (default [] (items cache) ++ data_items data);
         page := Some (data_page data);
         has_next := data_has_next data;
         entry_loading := false |} in
    let this := cacheSet cacheKey cachedData this in
    let this := with_loading false this in
    populateFieldOptions false this.

(** [getJson]: the fetch is recorded as the request in flight. *)
Definition getJson (r : Request) (this : DjangoQL) : DjangoQL :=
  with_request (Some r) (with_loading true this).

(** The [onload] handler of a request answered with status 200. *)
Definition requestLoaded (data : PageData) (this : DjangoQL) : Outcome :=
  match request this with
  | None => Normal this
  | Some r =>
      and_then (loadSuccess (req_cacheKey r) data (with_loading false this))
        (fun this => Normal (with_request None this))
  end.

Definition loadFieldOptions (loadMore : bool) (this : DjangoQL) : Outcome :=
  evaluating this (getCurrentFieldOptions this) (fun fieldOptions =>
  match fieldOptions with
  | Some (mkFieldOptions (Some key) context _) =>
      let '(cached, this) := cacheGet key this in
      let request (pg : option Z) :=
        let cached :=
          {| items := items cached; page := page cached;
             has_next := has_next cached; entry_loading := true |} in
        let this := cacheSet key cached this in
        let this :=
          getJson
            {| req_field := js_key (ctx_model context) +:+ "."
                            +:+ js_key (ctx_field context);
               req_search := ctx_prefix context;
               req_page := pg;
               req_cacheKey := key |} this in
        populateFieldOptions false this in
      if loadMore && has_next cached
      then request (Some (if page_loaded cached
                          then (default 0 (page cached) + 1)%Z else 1%Z))
      else if page_loaded cached then Normal this
      else request None
  | _ => Normal this
  end).

(* ================================================================== *)
(** ** [generateSuggestions] *)

(** The test of the [filter] callback in the ['field'] case: the field
    is a relation, its target is in the stack, and the target is not
    the last element of the stack. Such a field is left out. *)
Definition backReference (modelStack : list (option string)) (fd : FieldDef)
  : bool :=
  bool_decide (ftype fd = TRelation)
  && bool_decide (relation fd ∈ modelStack)
  && bool_decide (last modelStack ≠ Some (relation fd)).

(** The ['field'] case. [Object.keys(model)] with the lookups [model[f]]
    of the callbacks is the enumeration of the entries of the map. *)
Definition fieldSuggestions (model : Model)
    (modelStack : list (option string)) : list Suggestion :=
  map (fun '(f, fd) =>
         suggestion f EmptyString
           (if bool_decide (ftype fd = TRelation) then "." else " ") None)
      (List.filter (fun '(_, fd) => negb (backReference modelStack fd))
                   (map_to_list model)).

(** The snippets that put the cursor between quotes, between the
    parentheses of a quoted list, and between bare parentheses. *)
Definition snippetQuoted : string :=
  " " +:+ String JsString.dquote ("|" +:+ String JsString.dquote EmptyString).

Definition snippetInQuoted : string :=
  " (" +:+ String JsString.dquote
             ("|" +:+ String JsString.dquote ")").

Definition snippetInBare : string := " (|)".

(** The operators pushed on [suggestions] and the [snippetAfter] they
    share, in the ['comparison'] case. *)
Definition comparisonOperators (field : option FieldDef)
  : list (string * option string) * string :=
  let suggestions := [("=", None); ("!=", Some "is not equal to")] in
  match field with
  | Some fd =>
      if negb (bool_decide (ftype fd = TBool))
      then
        let '(suggestions, snippetAfter) :=
          if bool_decide (ftype fd = TDate) || bool_decide (ftype fd = TDateTime)
          then (suggestions ++ [("~", Some "contains");
                                ("!~", Some "does not contain")],
                snippetQuoted)
          else if bool_decide (ftype fd = TStr)
          then (suggestions ++ [("~", Some "contains");
                                ("!~", Some "does not contain");
                                ("startswith", None);
                                ("not startswith", None);
                                ("endswith", None);
                                ("not endswith", None)],
                snippetQuoted)
          else if has_options fd then (suggestions, snippetQuoted)
          else (suggestions, " ") in
        if negb (bool_decide (ftype fd = TStr))
        then (suggestions ++ [(">", None); (">=", None);
                              ("<", None); ("<=", None)],
              snippetAfter)
        else (suggestions, snippetAfter)
      else (suggestions, " ")
  | None => (suggestions, " ")
  end.

(** [this.suggestions] at the end of the ['comparison'] case, before
    the search filter runs. *)
Definition comparisonSuggestions (field : option FieldDef)
  : list Suggestion :=
  let '(suggestions, snippetAfter) := comparisonOperators field in
  let mapped :=
    map (fun '(s, explanation) =>
           suggestion s EmptyString snippetAfter explanation) suggestions in
  match field with
  | Some fd =>
      if negb (bool_decide (ftype fd = TBool))
      then
        let snippetAfter :=
          if bool_decide (ftype fd = TStr) || bool_decide (ftype fd = TDate)
             || bool_decide (ftype fd = TDateTime) || has_options fd
          then snippetInQuoted else snippetInBare in
        mapped ++ [suggestion "in" EmptyString snippetAfter None;
                   suggestion "not in" EmptyString snippetAfter None]
      else mapped
  | None => mapped
  end.

(** The ['value'] case. *)
Definition valueSuggestions (field : option FieldDef) (context : Context)
    (this : DjangoQL) : Outcome :=
  match field with
  | None =>
      Normal (with_suggestions [suggestion "None" EmptyString " " None] this)
  | Some fd =>
      if has_options fd
      then populateFieldOptions false (with_prefix (ctx_prefix context) this)
      else if bool_decide (ftype fd = TBool)
      then Normal (with_suggestions
                     ([suggestion "True" EmptyString " " None;
                       suggestion "False" EmptyString " " None]
                      ++ (if nullable fd
                          then [suggestion "None" EmptyString " " None]
                          else []))
                     this)
      else if bool_decide (ftype fd = TUnknown)
      then Normal (with_suggestions [] (with_prefix EmptyString this))
      else Normal this
  end.

Inductive SearchFilter : Type := FindAnywhere | StartsWith.

(** The filter in force after the [switch]: only the ['comparison']
    case replaces the default one. *)
Definition filterOf (scope : option Scope) : SearchFilter :=
  match scope with
  | Some ScopeComparison => StartsWith
  | _ => FindAnywhere
  end.

(** The [switch] over [context.scope], after [model] and [field] are
    read off the context. *)
Definition scopeSuggestions (context : Context) (this : DjangoQL) : Outcome :=
  evaluating this (contextField this context) (fun field =>
  match ctx_scope context with
  | Some ScopeField =>
      evaluating this
        (js_prop (models this !! js_key (ctx_model context))
           (fun model => fieldSuggestions model (ctx_modelStack context)))
        (fun l => Normal (with_suggestions l this))
  | Some ScopeComparison =>
      Normal (with_suggestions (comparisonSuggestions field) this)
  | Some ScopeValue => valueSuggestions field context this
  | Some ScopeLogical =>
      Normal (with_suggestions [suggestion "and" EmptyString " " None;
                                suggestion "or" EmptyString " " None] this)
  | None => Normal (with_suggestions [] (with_prefix EmptyString this))
  end).

(** The two search filters, reading [this.prefix] when they run. *)
Definition searchFilter (mode : SearchFilter) (this : DjangoQL)
    (item : Suggestion) : bool :=
  match mode with
  | FindAnywhere => JsString.includes (prefix this) (text item)
  | StartsWith => JsString.starts_with (prefix this) (text item)
  end.

(** The statements after the [switch]. *)
Definition filterAndSelect (mode : SearchFilter) (this : DjangoQL)
  : DjangoQL :=
  let this :=
    with_suggestions (List.filter (searchFilter mode this) (suggestions this))
      this in
  with_selected
    (if (length (suggestions this) =? 1)%nat then Some O else None) this.

Definition generateSuggestions (this : DjangoQL) : Outcome :=
  let input := textarea this in
  if negb (completionEnabled this)
  then Normal (with_suggestions [] (with_prefix EmptyString this))
  else if negb (truthy (currentModel this)) then Normal this
  else if negb (selectionStart input =? selectionEnd input)%nat
  then Normal (with_suggestions [] (with_prefix EmptyString this))
  else
    let this := with_highlightCaseSensitive true this in
    evaluating this
      (getContext this (value input) (selectionStart input))
      (fun context =>
         let this := with_prefix (ctx_prefix context) this in
         and_then (scopeSuggestions context this)
           (fun this =>
              Normal (filterAndSelect (filterOf (ctx_scope context)) this))).

(** [generateSuggestions] gets as far as [getContext]: completion is
    enabled, a current model is set and nothing is selected. *)
Definition ready (this : DjangoQL) : Prop :=
  completionEnabled this = true
  /\ truthy (currentModel this) = true
  /\ selectionStart (textarea this) = selectionEnd (textarea this).

(** The context [generateSuggestions] and [getCurrentFieldOptions]
    compute: that of the textarea at its cursor. *)
Definition contextAtCursor (this : DjangoQL) : js Context :=
  getContext this (value (textarea this)) (selectionStart (textarea this)).

(** Whether a procedure has returned, the texts in the completion box
    when it has, and whether a given text is among them. *)
Definition returned (o : Outcome) : bool :=
  match o with
  | Normal _ => true
  | Abrupt _ => false
  end.

Definition offered (o : Outcome) : option (list string) :=
  match o with
  | Normal this => Some (map text (suggestions this))
  | Abrupt _ => None
  end.

Definition offers (o : Outcome) (t : string) : bool :=
  match o with
  | Normal this => bool_decide (t ∈ map text (suggestions this))
  | Abrupt _ => false
  end.

(** The part of a context and of a resolved name that the test suite
    compares. *)
Definition contextSummary (c : js Context)
  : js (string * option Scope * option string * option string) :=
  c ← c; Ret (ctx_prefix c, ctx_scope c, ctx_model c, ctx_field c).

Definition resolvedSummary (r : js Resolved)
  : js (option string * option string) :=
  r ← r; Ret (res_model r, res_field r).

(* ================================================================== *)
(** ** The lexer *)

Module Lexer.

Definition in_range (lo hi : nat) (c : ascii) : bool :=
  let n := nat_of_ascii c in (lo <=? n)%nat && (n <=? hi)%nat.

Definition is_digit (c : ascii) : bool := in_range 48 57 c.

Definition is_hex (c : ascii) : bool :=
  is_digit c || in_range 65 70 c || in_range 97 102 c.

(** [[_A-Za-z]] and [[_0-9A-Za-z]]. *)
Definition is_name_start (c : ascii) : bool :=
  Ascii.eqb c "_" || in_range 65 90 c || in_range 97 122 c.

Definition is_name_char (c : ascii) : bool := is_name_start c || is_digit c.

Fixpoint digit_run (s : string) : nat :=
  match s with
  | String c rest => if is_digit c then S (digit_run rest) else O
  | EmptyString => O
  end.

(** A pattern gives the length of its match at the head of the rest of
    the input, if it matches there. *)
Definition Pattern : Type := string -> option nat.

Definition whitespaceRegex : Pattern := fun s =>
  match whitespace_run s with
  | O => None
  | n => Some n
  end.

Definition literal (lit : string) : Pattern := fun s =>
  if String.prefix lit s then Some (String.length lit) else None.

(** [word] followed by [reNotFollowedByName]. *)
Definition reserved (word : string) : Pattern := fun s =>
  if String.prefix word s
  then match JsString.drop (String.length word) s with
       | String c _ => if is_name_char c then None
                       else Some (String.length word)
       | EmptyString => Some (String.length word)
       end
  else None.

(** [nameRegex], after its first character: [cur] characters are read
    so far, the match ends after [good] of them. *)
Fixpoint name_rest (s : string) (afterDot : bool) (cur good : nat) : nat :=
  match s with
  | EmptyString => good
  | String c rest =>
      if afterDot
      then if is_name_start c then name_rest rest false (S cur) (S cur)
           else good
      else if is_name_char c then name_rest rest false (S cur) (S cur)
      else if Ascii.eqb c "." then name_rest rest true (S cur) good
      else good
  end.

Definition nameRegex : Pattern := fun s =>
  match s with
  | String c rest =>
      if is_name_start c then Some (name_rest rest false 1 1) else None
  | EmptyString => None
  end.

Definition backslash : ascii := Ascii false false true true true false true false.

(** [reEscapedChar] after the backslash. *)
Definition is_escape (c : ascii) : bool :=
  Ascii.eqb c backslash || Ascii.eqb c JsString.dquote || Ascii.eqb c "/"
  || Ascii.eqb c "b" || Ascii.eqb c "f" || Ascii.eqb c "n"
  || Ascii.eqb c "r" || Ascii.eqb c "t".

(** [stringRegex] after the opening quote, [cur] characters read. *)
Fixpoint string_rest (s : string) (cur : nat) : option nat :=
  match s with
  | EmptyString => None
  | String c rest =>
      if Ascii.eqb c JsString.dquote then Some (S cur)
      else if Ascii.eqb c backslash
      then match rest with
           | String e rest' =>
               if is_escape e then string_rest rest' (2 + cur)
               else if Ascii.eqb e "u"
               then match rest' with
                    | String h1 (String h2 (String h3 (String h4 rest''))) =>
                        if is_hex h1 && is_hex h2 && is_hex h3 && is_hex h4
                        then string_rest rest'' (6 + cur)
                        else None
                    | _ => None
                    end
               else None
           | EmptyString => None
           end
      else if (nat_of_ascii c =? 10)%nat || (nat_of_ascii c =? 13)%nat
      then None
      else string_rest rest (S cur)
  end.

Definition stringRegex : Pattern := fun s =>
  match s with
  | String c rest =>
      if Ascii.eqb c JsString.dquote then string_rest rest 1 else None
  | EmptyString => None
  end.

(** [reIntValue]: an optional minus, then [0] or a number without a
    leading zero. *)
Definition intRegex : Pattern := fun s =>
  let '(sign, rest) :=
    match s with
    | String c rest' => if Ascii.eqb c "-" then (1, rest') else (0, s)
    | EmptyString => (0, s)
    end in
  match rest with
  | String c rest' =>
      if Ascii.eqb c "0" then Some (sign + 1)
      else if is_digit c then Some (sign + 1 + digit_run rest')
      else None
  | EmptyString => None
  end.

Definition fractionPart : Pattern := fun s =>
  match s with
  | String c rest =>
      if Ascii.eqb c "."
      then match digit_run rest with
           | O => None
           | n => Some (1 + n)
           end
      else None
  | EmptyString => None
  end.

Definition exponentPart : Pattern := fun s =>
  match s with
  | String c rest =>
      if Ascii.eqb c "e" || Ascii.eqb c "E"
      then
        let '(sign, rest) :=
          match rest with
          | String c' rest' =>
              if Ascii.eqb c' "+" || Ascii.eqb c' "-" then (1, rest')
              else (0, rest)
          | EmptyString => (0, rest)
          end in
        match digit_run rest with
        | O => None
        | n => Some (1 + sign + n)
        end
      else None
  | EmptyString => None
  end.

(** [floatRegex]: integer, fraction and exponent; or integer and
    fraction; or integer and exponent. *)
Definition floatRegex : Pattern := fun s =>
  match intRegex s with
  | None => None
  | Some i =>
      let rest := JsString.drop i s in
      match fractionPart rest with
      | Some f =>
          match exponentPart (JsString.drop f rest) with
          | Some e => Some (i + f + e)
          | None => Some (i + f)
          end
      | None =>
          match exponentPart rest with
          | Some e => Some (i + e)
          | None => None
          end
      end
  end.

(** A rule: its pattern and what its action makes of the lexeme
    ([None] when the action returns nothing). *)
Record Rule : Type := mkRule {
  pattern : Pattern;
  action : string -> option (TokenKind * string);
}.

Definition token (name : TokenKind) : string -> option (TokenKind * string) :=
  fun l => Some (name, l).

(** The rules in the order of the [addRule] calls. *)
Definition rules : list Rule :=
  [ mkRule whitespaceRegex (fun _ => None);
    mkRule (literal ".") (token DOT);
    mkRule (literal ",") (token COMMA);
    mkRule (reserved "or") (token OR);
    mkRule (reserved "and") (token AND);
    mkRule (reserved "not") (token NOT);
    mkRule (reserved "in") (token IN);
    mkRule (reserved "startswith") (token STARTSWITH);
    mkRule (reserved "endswith") (token ENDSWITH);
    mkRule (reserved "True") (token TRUE);
    mkRule (reserved "False") (token FALSE);
    mkRule (reserved "None") (token NONE);
    mkRule nameRegex (token NAME);
    mkRule stringRegex
      (fun l => Some (STRING_VALUE,
                      JsString.slice 1 (String.length l - 1) l));
    mkRule intRegex (token INT_VALUE);
    mkRule floatRegex (token FLOAT_VALUE);
    mkRule (literal "(") (token PAREN_L);
    mkRule (literal ")") (token PAREN_R);
    mkRule (literal "=") (token EQUALS);
    mkRule (literal "!=") (token NOT_EQUALS);
    mkRule (literal ">") (token GREATER);
    mkRule (literal ">=") (token GREATER_EQUAL);
    mkRule (literal "<") (token LESS);
    mkRule (literal "<=") (token LESS_EQUAL);
    mkRule (literal "~") (token CONTAINS);
    mkRule (literal "!~") (token NOT_CONTAINS) ].

(** The scan of the [lex] package at one position: of the rules that
    match there, the one with the longest match, the earliest rule
    among equally long ones. *)
Fixpoint scan (rs : list Rule) (s : string) (best : option (nat * Rule))
  : option (nat * Rule) :=
  match rs with
  | [] => best
  | r :: rest =>
      let best :=
        match pattern r s, best with
        | Some n, Some (m, _) => if (m <? n)%nat then Some (n, r) else best
        | Some n, None => Some (n, r)
        | None, _ => best
        end in
      scan rest s best
  end.

(** [lexAll] from position [index], with [s] the input from there on.
    A character no rule matches is handed to the error callback, which
    swallows it. Each round consumes at least one character, so
    [fuel] beyond the length of [s] is never used up. *)
Fixpoint lexFrom (fuel : nat) (s : string) (index : nat) : list Token :=
  match fuel with
  | O => []
  | S fuel' =>
      match s with
      | EmptyString => []
      | String _ rest =>
          match scan rules s None with
          | Some (S n, r) =>
              let lexeme := substring 0 (S n) s in
              let index' := (index + S n)%nat in
              let more := lexFrom fuel' (JsString.drop (S n) s) index' in
              match action r lexeme with
              | Some (name, v) =>
                  mkToken name v (index' - String.length v) index' :: more
              | None => more
              end
          | _ => lexFrom fuel' rest (S index)
          end
      end
  end.

(** [lexer.setInput(text).lexAll()]. *)
Definition lexAll (text : string) : list Token :=
  lexFrom (S (String.length text)) text 0.

End Lexer.

(* ================================================================== *)
(** ** A concrete engine: the schema of the test suite *)

Module Books.

Definition scalar (t : FieldType) : FieldDef := mkField t None NoOptions false.

Definition rel (target : string) : FieldDef :=
  mkField TRelation (Some target) NoOptions false.

Definition auth_group : Model :=
  list_to_map
    [("user", rel "auth.user"); ("id", scalar TInt); ("name", scalar TStr)].

Definition auth_user : Model :=
  list_to_map
    [("book", rel "core.book"); ("id", scalar TInt);
     ("password", scalar TStr); ("last_login", scalar TDateTime);
     ("is_superuser", scalar TBool); ("username", scalar TStr);
     ("first_name", scalar TStr); ("last_name", scalar TStr);
     ("email", scalar TStr); ("is_staff", scalar TBool);
     ("is_active", scalar TBool); ("date_joined", scalar TDateTime);
     ("groups", rel "auth.group")].

Definition core_book : Model :=
  list_to_map
    [("id", scalar TInt); ("name", scalar TStr); ("author", rel "auth.user");
     ("written", scalar TDateTime); ("is_published", scalar TBool);
     ("rating", scalar TFloat); ("price", scalar TFloat)].

Definition schema : Models :=
  list_to_map
    [("auth.group", auth_group); ("auth.user", auth_user);
     ("core.book", core_book)].

(** The engine as the constructor leaves it for a schema given as an
    object, with [text] in the textarea and the cursor at [pos]. *)
Definition engine (ms : Models) (current : string) (text : string)
    (pos : nat) : DjangoQL :=
  {| currentModel := Some current;
     models := ms;
     suggestionsAPIUrl := None;
     lexer := Lexer.lexAll;
     prefix := EmptyString;
     suggestions := [];
     selected := None;
     valuesCaseSensitive := false;
     highlightCaseSensitive := true;
     completionEnabled := true;
     textarea := mkTextarea text pos pos;
     suggestionsCache := LRUCache.create 100;
     loading := false;
     debouncedLoad := None;
     request := None |}.

Definition djangoQL : DjangoQL := engine schema "core.book" EmptyString 0.

End Books.

(* ================================================================== *)
(** ** Engines used as concrete inputs *)

Module Examples.

Definition item : Model :=
  list_to_map [("owner", Books.rel "shop.ghost"); ("id", Books.scalar TInt)].

(** A relation whose target is missing from [models]. *)
Definition dangling : DjangoQL :=
  Books.engine (list_to_map [("shop.item", item)])
    "shop.item" EmptyString 0.

Definition node : Model :=
  list_to_map
    [("parent", Books.rel "tree.node"); ("label", Books.scalar TStr)].

(** A model with a relation to itself. *)
Definition tree (text : string) (pos : nat) : DjangoQL :=
  Books.engine (list_to_map [("tree.node", node)]) "tree.node" text pos.

Definition stars : FieldDef :=
  mkField TInt None (InlineOptions ["1"; "2"; "3"]) false.

Definition review : Model :=
  list_to_map
    [("stars", stars); ("votes", Books.scalar TInt);
     ("hidden", Books.scalar TBool); ("title", Books.scalar TStr)].

(** A numeric field with an inline list of options, next to a plain
    numeric, a boolean and a string field. *)
Definition rated (text : string) (pos : nat) : DjangoQL :=
  Books.engine (list_to_map [("core.review", review)])
    "core.review" text pos.

End Examples.

(* ================================================================== *)
(** ** Notions used to state further properties *)

(** [p] is the end of [s]. *)
Definition suffix_of (p s : string) : Prop := exists before, s = before +:+ p.

(** [b] is the target of a relation field of the model [a]. *)
Definition relation_step (ms : Models) (a b : option string) : Prop :=
  exists fields f fd,
    ms !! js_key a = Some fields
    /\ fields !! f = Some fd
    /\ ftype fd = TRelation
    /\ relation fd = b.

(** Each element of the stack is reached from the one before it by a
    relation field. *)
Definition relation_path (ms : Models) (stack : list (option string)) : Prop :=
  forall i a b,
    stack !! i = Some a -> stack !! S i = Some b -> relation_step ms a b.

(** The user edits the text or moves the cursor: the textarea changes. *)
Definition with_textarea (t : Textarea) (this : DjangoQL) : DjangoQL :=
  mkDjangoQL (currentModel this) (models this) (suggestionsAPIUrl this)
    (lexer this) (prefix this) (suggestions this) (selected this)
    (valuesCaseSensitive this) (highlightCaseSensitive this)
    (completionEnabled this) t (suggestionsCache this)
    (loading this) (debouncedLoad this) (request this).


(** The user's request fails (a timeout, a network error or a status
    other than 200): [onLoadError] of [getJson]. *)
Definition requestFailed (this : DjangoQL) : DjangoQL :=
  with_request None (with_loading false this).

Module Library.

Definition genre : FieldDef :=
  mkField TStr None (InlineOptions ["Drama"; "drama"; "Comedy"]) false.

Definition title : FieldDef := mkField TStr None RemoteOptions false.

Definition book : Model :=
  list_to_map [("genre", genre); ("title", title); ("id", Books.scalar TInt)].

(** An engine with a suggestions API, over a model with a field whose
    options are inline and a field whose options are fetched. *)
Definition engine (text : string) (pos : nat) : DjangoQL :=
  {| currentModel := Some "lib.book";
     models := list_to_map [("lib.book", book)];
     suggestionsAPIUrl := Some "/suggestions/";
     lexer := Lexer.lexAll;
     prefix := EmptyString;
     suggestions := [];
     selected := None;
     valuesCaseSensitive := false;
     highlightCaseSensitive := true;
     completionEnabled := true;
     textarea := mkTextarea text pos pos;
     suggestionsCache := LRUCache.create 100;
     loading := false;
     debouncedLoad := None;
     request := None |}.

End Library.

(** The suggestions API answers one request after the other: the
    [success] callback of [loadFieldOptions] runs on each page in turn. *)
Definition deliver (key : string) (pages : list PageData) (this : DjangoQL)
  : DjangoQL :=
  fold_left (fun this data => state_of (loadSuccess key data this)) pages this.

(* ================================================================== *)
(** ** Further string primitives of JavaScript *)

Module Js.

(** [s.split(sep)] for a separator of one character. *)
Fixpoint split (sep : ascii) (s : string) : list string :=
  match s with
  | EmptyString => [EmptyString]
  | String c rest =>
      if Ascii.eqb c sep then EmptyString :: split sep rest
      else match split sep rest with
           | [] => [String c EmptyString]
           | h :: t => String c h :: t
           end
  end.

(** [parts.join(sep)]. *)
Definition join (sep : string) (parts : list string) : string :=
  String.concat sep parts.

(** An argument of [slice] as a position in a string of length [len]:
    a negative one counts from the end, and both ends clamp. *)
Definition position (len : nat) (i : Z) : nat :=
  if (i <? 0)%Z then Z.to_nat (Z.max (Z.of_nat len + i) 0)
  else Nat.min (Z.to_nat i) len.

(** [s.slice(a, b)] for any integers [a] and [b]. *)
Definition slice (a b : Z) (s : string) : string :=
  let from := position (String.length s) a in
  let to := position (String.length s) b in
  substring from (to - from) s.

(** [s.slice(a)]. *)
Definition sliceFrom (a : Z) (s : string) : string :=
  JsString.drop (position (String.length s) a) s.

(** White space and line terminators below 256, which [trim] strips:
    tab, line feed, vertical tab, form feed, carriage return, space and
    the no-break space. *)
Definition is_space (c : ascii) : bool :=
  let n := nat_of_ascii c in
  ((9 <=? n)%nat && (n <=? 13)%nat) || (n =? 32)%nat || (n =? 160)%nat.

Fixpoint trimStart (s : string) : string :=
  match s with
  | String c rest => if is_space c then trimStart rest else s
  | EmptyString => EmptyString
  end.

Fixpoint trimEnd (s : string) : string :=
  match s with
  | EmptyString => EmptyString
  | String c rest =>
      match trimEnd rest with
      | EmptyString => if is_space c then EmptyString else String c EmptyString
      | rest' => String c rest'
      end
  end.

(** [s.trim()]. *)
Definition trim (s : string) : string := trimEnd (trimStart s).

(** [s.startsWith(p)] and [s.endsWith(p)]. *)
Definition startsWith (p s : string) : bool := String.prefix p s.

Definition endsWith (p s : string) : bool :=
  (String.length p <=? String.length s)%nat
  && String.eqb (JsString.drop (String.length s - String.length p) s) p.

End Js.

(* ================================================================== *)
(** ** The keyboard and the completion box: [hideCompletion],
       [renderCompletion], [popupCompletion], [selectCompletion],
       [onKeydown] *)

Definition hideCompletion (this : DjangoQL) : DjangoQL :=
  with_selected None this.

(** [renderCompletion()] called without argument. Drawing the box is no
    part of the engine; what is left is that the box is hidden, and the
    selection dropped with it, when completion is disabled or when
    there is nothing to show and nothing being loaded. *)
Definition renderCompletion (this : DjangoQL) : DjangoQL :=
  if negb (completionEnabled this) then hideCompletion this
  else if (length (suggestions this) =? 0)%nat && negb (loading this)
  then hideCompletion this
  else this.


(** [setSelectionRange(pos, pos)] on a text of length [len]: the
    argument is taken as an unsigned 32-bit integer and clamped to the
    length of the text. *)
Definition selectionIndex (len : nat) (pos : Z) : nat :=
  Nat.min (Z.to_nat (pos mod 2 ^ 32)) len.

(** [selectCompletion(index)]. Reading the snippets of
    [this.suggestions[index]] throws when there is no such suggestion,
    before anything is changed. Giving the focus to the textarea and
    resizing it are no part of the engine. *)
Definition selectCompletion (index : nat) (this : DjangoQL) : Outcome :=
  let input := textarea this in
  evaluating this (getContext this (value input) (selectionStart input))
    (fun context =>
  let textValue := value input in
  let startPos :=
    (Z.of_nat (selectionStart input)
     - Z.of_nat (String.length (ctx_prefix context)))%Z in
  let textValue :=
    match ctx_currentFullToken context with
    | Some currentFullToken =>
        Js.slice 0 startPos textValue
        +:+ Js.sliceFrom (Z.of_nat (tok_end currentFullToken)) textValue
    | None => textValue
    end in
  let textBefore := Js.slice 0 startPos textValue in
  let textAfter := Js.trim (Js.sliceFrom startPos textValue) in
  match suggestions this !! index with
  | None => Abrupt this
  | Some completion =>
      let snippetAfterParts := Js.split "|" (snippetAfter completion) in
      let '(snippetBefore, snippetAfter) :=
        if (1 <? length snippetAfterParts)%nat
        then
          if String.eqb (snippetBefore completion) EmptyString
             && String.eqb (text completion) EmptyString
          then (nth 0 snippetAfterParts EmptyString,
                nth 1 snippetAfterParts EmptyString)
          else (snippetBefore completion,
                Js.join EmptyString snippetAfterParts)
        else (snippetBefore completion, snippetAfter completion) in
      let snippetBefore :=
        if Js.endsWith snippetBefore textBefore then EmptyString
        else snippetBefore in
      let snippetAfter :=
        if Js.startsWith snippetAfter textAfter then EmptyString
        else snippetAfter in
      let textToPaste := snippetBefore +:+ text completion +:+ snippetAfter in
      let cursorPosAfter :=
        (Z.of_nat (String.length textBefore)
         + Z.of_nat (String.length textToPaste)
         - (if (1 <? length snippetAfterParts)%nat
            then Z.of_nat (String.length (nth 1 snippetAfterParts EmptyString))
            else 0))%Z in
      let newValue := textBefore +:+ textToPaste +:+ textAfter in
      let pos := selectionIndex (String.length newValue) cursorPosAfter in
      let this := with_textarea (mkTextarea newValue pos pos) this in
      let this := with_selected None this in
      and_then (generateSuggestions this)
        (fun this => Normal (renderCompletion this))
  end).

(** What a key press does beyond changing the engine. *)
Inductive KeyEffect : Type :=
| NoEffect
| DefaultPrevented
(** the query is submitted, through [options.onSubmit] or the form, and
    the default action of the key prevented *)
| Submitted (query : string)
(** [popupCompletion] is set to run 10 ms later *)
| PopupScheduled.

(** The case of [Tab], and of [Enter] with a selection. *)
Definition keySelect (index : nat) (this : DjangoQL) : Outcome * KeyEffect :=
  match selectCompletion index this with
  | Normal this => (Normal this, DefaultPrevented)
  | Abrupt this => (Abrupt this, NoEffect)
  end.

(** [onKeydown(e)] by [e.keyCode]: the engine it leaves and what it
    does to the event and the form. *)
Definition onKeydown (keyCode : nat) (this : DjangoQL)
  : Outcome * KeyEffect :=
  match keyCode with
  | 38 =>
      if negb (length (suggestions this) =? 0)%nat
      then
        let selected :=
          match selected this with
          | None => Some (length (suggestions this) - 1)%nat
          | Some O => None
          | Some (S n) => Some n
          end in
        (Normal (renderCompletion (with_selected selected this)),
         DefaultPrevented)
      else (Normal this, NoEffect)
  | 40 =>
      if negb (length (suggestions this) =? 0)%nat
      then
        let selected :=
          match selected this with
          | None => Some O
          | Some n =>
              if (n <? length (suggestions this) - 1)%nat then Some (S n)
              else None
          end in
        (Normal (renderCompletion (with_selected selected this)),
         DefaultPrevented)
      else (Normal this, NoEffect)
  | 9 =>
      match selected this with
      | Some index => keySelect index this
      | None => (Normal this, NoEffect)
      end
  | 13 =>
      match selected this with
      | Some index => keySelect index this
      | None => (Normal this, Submitted (value (textarea this)))
      end
  | 27 => (Normal (hideCompletion this), NoEffect)
  | 16 | 17 | 18 | 91 | 93 => (Normal this, NoEffect)
  | _ => (Normal this, PopupScheduled)
  end.

(** The selected index, if any, is that of a suggestion. *)
Definition valid_selection (this : DjangoQL) : Prop :=
  match selected this with
  | Some i => (i < length (suggestions this))%nat
  | None => True
  end.

(** Where a token lies in the text it was read from. The value of a
    token other than a string is the text from [start] to [end]. The
    value of a string token comes without its quotes, which moves
    [start]: the value is the text from [start - 1] to [end - 1]. *)
Definition token_located (text : string) (t : Token) : Prop :=
  (tok_start t + String.length (tok_value t) = tok_end t)%nat
  /\ (tok_end t <= String.length text)%nat
  /\ (tok_name t <> STRING_VALUE ->
      JsString.slice (tok_start t) (tok_end t) text = tok_value t)
  /\ (tok_name t = STRING_VALUE ->
      (2 <= tok_start t)%nat
      /\ JsString.slice (tok_start t - 1) (tok_end t - 1) text = tok_value t).

(* ================================================================== *)
(** ** [setUrlParams] *)

Module Utils.

(** A digit of upper-case hexadecimal. *)
Definition hexDigit (n : nat) : ascii :=
  ascii_of_nat (if (n <? 10)%nat then 48 + n else 55 + n).

(** The escape [%XX] of a byte. *)
Definition percent (byte : nat) : string :=
  String "%" (String (hexDigit (byte / 16))
                (String (hexDigit (byte mod 16)) EmptyString)).

Fixpoint hasChar (c : ascii) (s : string) : bool :=
  match s with
  | EmptyString => false
  | String d rest => Ascii.eqb c d || hasChar c rest
  end.

(** The characters [encodeURI] leaves as they are: letters, digits and
    [; , / ? : @ & = + $ - _ . ! ~ * ' ( ) #]. *)
Definition uriKept (c : ascii) : bool :=
  Lexer.in_range 48 57 c || Lexer.in_range 65 90 c || Lexer.in_range 97 122 c
  || hasChar c ";,/?:@&=+$-_.!~*'()#".

(** [encodeURI(s)] on code units below 256: another character is
    replaced by the escapes of the bytes of its UTF-8 encoding, one
    byte below 128 and two from there on. *)
Fixpoint encodeURI (s : string) : string :=
  match s with
  | EmptyString => EmptyString
  | String c rest =>
      let n := nat_of_ascii c in
      (if uriKept c then String c EmptyString
       else if (n <? 128)%nat then percent n
       else percent (192 + n / 64) +:+ percent (128 + n mod 64))
      +:+ encodeURI rest
  end.

(** [params[key]] turned into a string: the parameters are an object
    whose values are strings or numbers, given here as the list of its
    entries in the order of [Object.keys], the values as strings; a
    missing key reads as [undefined]. *)
Fixpoint param (key : string) (params : list (string * string)) : string :=
  match params with
  | [] => "undefined"
  | (k, v) :: rest => if String.eqb k key then v else param key rest
  end.

(** [pair[1] = value] on the array [pair]. *)
Definition setValue (value : string) (pair : list string) : list string :=
  match pair with
  | [] => [EmptyString; value]
  | [k] => [k; value]
  | k :: _ :: more => k :: value :: more
  end.

(** The loop [while (i--)] over the pairs, from the last one down: the
    first pair found whose key is [key] gets the value [value]. The
    pairs are given last first; [None] when no pair has the key. *)
Fixpoint replacePair (key value : string) (reversed : list string)
  : option (list string) :=
  match reversed with
  | [] => None
  | p :: rest =>
      let pair := Js.split "=" p in
      if String.eqb (hd EmptyString pair) key
      then Some (Js.join "=" (setValue value pair) :: rest)
      else option_map (cons p) (replacePair key value rest)
  end.

(** The body of the [forEach] callback. *)
Definition setParam (params : list (string * string)) (pairs : list string)
    (k : string) : list string :=
  let key := encodeURI k in
  let value := encodeURI (param key params) in
  match replacePair key value (rev pairs) with
  | Some reversed => rev reversed
  | None => pairs ++ [key +:+ "=" +:+ value]
  end.

Definition setUrlParams (url : string) (params : list (string * string))
  : string :=
  let parts := Js.split "?" url in
  let path := hd EmptyString parts in
  let queryString := Js.join "?" (tl parts) in
  let pairs := Js.split "&" queryString in
  let pairs := fold_left (setParam params) (map fst params) pairs in
  let queryString := Js.join "&" pairs in
  if String.eqb queryString EmptyString then path
  else Js.join "?" [path; queryString].

End Utils.

(** A parameter name that [encodeURI] leaves as it is and that can be
    told from its value in a pair [name=value]: not empty and without
    an equals sign. *)
Definition plain_name (k : string) : Prop :=
  Utils.encodeURI k = k /\ k <> EmptyString /\ Utils.hasChar "=" k = false.

(* ================================================================== *)
(** * Properties *)

(** Close goals [x ∈ l] and [x ∉ l] for a list of literals. *)
Ltac is_offered := apply list_elem_of_In; simpl; auto 20.

Ltac not_offered :=
  let H := fresh in
  intros H; apply list_elem_of_In in H; simpl in H; intuition discriminate.

(** ** The expectations of the test suite

    The embedding run on the inputs of [tests/DjangoQL.test.js] gives
    what the tests expect. *)

Example lexer_punctuation :
  map tok_name
    (Lexer.lexAll ("() ., = != >" +:+ String (ascii_of_nat 9)
                                        " >= < <= ~ !~"))
  = [PAREN_L; PAREN_R; DOT; COMMA; EQUALS; NOT_EQUALS; GREATER;
     GREATER_EQUAL; LESS; LESS_EQUAL; CONTAINS; NOT_CONTAINS].
Proof. vm_compute. reflexivity. Qed.

Example lexer_names :
  map (fun t => (tok_name t, tok_value t))
    (Lexer.lexAll "a myVar_42 __LOL__ _ _0")
  = [(NAME, "a"); (NAME, "myVar_42"); (NAME, "__LOL__"); (NAME, "_");
     (NAME, "_0")].
Proof. vm_compute. reflexivity. Qed.

Example lexer_reserved_words :
  map (fun t => (tok_name t, tok_value t))
    (Lexer.lexAll "True False None or and in")
  = [(TRUE, "True"); (FALSE, "False"); (NONE, "None"); (OR, "or");
     (AND, "and"); (IN, "in")].
Proof. vm_compute. reflexivity. Qed.

Example lexer_strings :
  let q := String JsString.dquote EmptyString in
  let b := String Lexer.backslash EmptyString in
  map (fun t => (tok_name t, tok_value t))
    (Lexer.lexAll (q +:+ q +:+ " " +:+ q +:+ "42" +:+ q +:+ " "
                   +:+ q +:+ b +:+ "t" +:+ b +:+ "n" +:+ b +:+ "u0042 "
                   +:+ b +:+ q +:+ " ^" +:+ q))
  = [(STRING_VALUE, EmptyString); (STRING_VALUE, "42");
     (STRING_VALUE,
      b +:+ "t" +:+ b +:+ "n" +:+ b +:+ "u0042 " +:+ b +:+ q +:+ " ^")].
Proof. vm_compute. reflexivity. Qed.

Example lexer_int_values :
  map (fun t => (tok_name t, tok_value t)) (Lexer.lexAll "0 -0 42 -42")
  = [(INT_VALUE, "0"); (INT_VALUE, "-0"); (INT_VALUE, "42");
     (INT_VALUE, "-42")].
Proof. vm_compute. reflexivity. Qed.

Example lexer_float_values :
  map (fun t => (tok_name t, tok_value t))
    (Lexer.lexAll "-0.5e+42 42.0 2E64 2.71e-0002")
  = [(FLOAT_VALUE, "-0.5e+42"); (FLOAT_VALUE, "42.0"); (FLOAT_VALUE, "2E64");
     (FLOAT_VALUE, "2.71e-0002")].
Proof. vm_compute. reflexivity. Qed.

Example resolveName_known_names :
  map (fun name => resolvedSummary (resolveName Books.djangoQL name))
    ["price"; "author"; "author.first_name"; "author.groups";
     "author.groups.id"; "author.groups.user"; "author.groups.user.email"]
  = [Ret (Some "core.book", Some "price");
     Ret (Some "auth.user", None);
     Ret (Some "auth.user", Some "first_name");
     Ret (Some "auth.group", None);
     Ret (Some "auth.group", Some "id");
     Ret (Some "auth.user", None);
     Ret (Some "auth.user", Some "email")].
Proof. vm_compute. reflexivity. Qed.

Example resolveName_unknown_names :
  map (fun name => resolvedSummary (resolveName Books.djangoQL name))
    ["gav"; "author.gav"; "author.groups.gav"]
  = [Ret (None, None); Ret (None, None); Ret (None, None)].
Proof. vm_compute. reflexivity. Qed.

Example getContext_scope_and_prefix :
  let book := Some "core.book" in
  map (fun '(text, pos) => contextSummary (getContext Books.djangoQL text pos))
    [(EmptyString, 0); ("just some text after cursor", 0);
     ("random_word", 4); ("random", 6); ("id", 2); ("id ", 3); ("id >", 4);
     ("id > ", 5); ("id > 1", 6); ("id > 1 ", 7); ("id > 1 hmm", 10);
     ("id > 1 and ", 11); ("id > 1 and author.", 18);
     ("id > 1 and author.i", 19); ("(id = 1) ", 9); ("(id = 1) a", 10);
     ("(id = 1)", 1); ("(id = 1)", 2)]
  = [Ret (EmptyString, Some ScopeField, book, None);
     Ret (EmptyString, Some ScopeField, book, None);
     Ret ("rand", Some ScopeField, book, None);
     Ret ("random", Some ScopeField, book, None);
     Ret ("id", Some ScopeField, book, None);
     Ret (EmptyString, Some ScopeComparison, book, Some "id");
     Ret (">", Some ScopeComparison, book, Some "id");
     Ret (EmptyString, Some ScopeValue, book, Some "id");
     Ret ("1", Some ScopeValue, book, Some "id");
     Ret (EmptyString, Some ScopeLogical, None, None);
     Ret ("hmm", Some ScopeLogical, None, None);
     Ret (EmptyString, Some ScopeField, book, None);
     Ret (EmptyString, Some ScopeField, Some "auth.user", None);
     Ret ("i", Some ScopeField, Some "auth.user", None);
     Ret (EmptyString, Some ScopeLogical, None, None);
     Ret ("a", Some ScopeLogical, None, None);
     Ret (EmptyString, Some ScopeField, book, None);
     Ret ("i", Some ScopeField, book, None)].
Proof. vm_compute. reflexivity. Qed.

Example getContext_unknown_cases :
  map (fun '(text, pos) =>
         c ← getContext Books.djangoQL text pos;
         Ret (ctx_scope c, ctx_model c, ctx_field c))
    [("random_word ", 12); ("id > 1 hmm ", 11); ("(id = 1)", 8);
     ("a = " +:+ String JsString.dquote EmptyString, 5)]
  = [Ret (None, None, None); Ret (None, None, None); Ret (None, None, None);
     Ret (None, None, None)].
Proof. vm_compute. reflexivity. Qed.

Example generateSuggestions_no_circular_deps :
  offers (generateSuggestions
            (Books.engine Books.schema "core.book" "author." 7)) "book"
  = false
  /\ offers (generateSuggestions
               (Books.engine Books.schema "auth.group" "user." 5)) "book"
     = true
  /\ returned (generateSuggestions
                 (Books.engine Books.schema "auth.group" "user.book." 10))
     = true
  /\ offers (generateSuggestions
               (Books.engine Books.schema "auth.group" "user.book." 10))
       "author"
     = false.
Proof. repeat split; vm_compute; reflexivity. Qed.

(** ** [resolveName] *)

Lemma truthy_Some (v : option string) :
  truthy v = true -> exists s, v = Some s /\ s <> EmptyString.
Proof.
  destruct v as [s|]; simpl; [|discriminate].
  intros H. exists s. split; [reflexivity|].
  intros ->. discriminate.
Qed.

Lemma resolveParts_walk ms pre rest stack model field stack' model' field' :
  walk ms pre stack model field = Some (stack', model', field') ->
  resolveParts ms (pre ++ rest) stack model field
  = resolveParts ms rest stack' model' field'.
Proof.
  revert stack model field.
  induction pre as [|part pre IH]; intros stack model field Hw; simpl in *.
  - by inversion Hw.
  - destruct (ms !! js_key model) as [fields|]; [|discriminate]. simpl.
    destruct (fields !! part) as [fd|]; [|discriminate].
    destruct (bool_decide (ftype fd = TRelation)); by apply IH.
Qed.


Lemma resolveParts_missing_model ms part rest stack model field :
  ms !! js_key model = None ->
  resolveParts ms (part :: rest) stack model field = Throw.
Proof. intros Hm. simpl. by rewrite Hm. Qed.

Lemma resolveName_truthy this name :
  truthy (currentModel this) = true ->
  resolveName this name
  = resolveParts (models this) (JsString.split_dot name)
      [currentModel this] (currentModel this) None.
Proof. intros H. unfold resolveName. by rewrite H. Qed.

(** The loop keeps the bottom of the stack and, unless it resets the
    model, leaves the model on top of it. *)
Lemma resolveParts_stack ms cm parts : forall stack model field r,
  resolveParts ms parts stack model field = Ret r ->
  head stack = Some cm ->
  last stack = Some model ->
  head (res_modelStack r) = Some cm
  /\ (res_model r = None \/ last (res_modelStack r) = Some (res_model r)).
Proof.
  induction parts as [|part parts IH]; intros stack model field r Hr Hh Hl.
  - simpl in Hr. inversion Hr; subst; simpl. auto.
  - simpl in Hr.
    destruct (ms !! js_key model) as [fields|]; [|discriminate]. simpl in Hr.
    destruct (fields !! part) as [fd|].
    + destruct (bool_decide (ftype fd = TRelation)).
      * apply IH in Hr; [done| |by rewrite last_snoc].
        destruct stack; [discriminate|done].
      * by apply IH in Hr.
    + inversion Hr; subst; simpl. auto.
Qed.

(** On a closed schema the loop never reads a property of [undefined]. *)
Lemma resolveParts_total ms parts : forall stack model field,
  (forall m fields f fd,
      ms !! m = Some fields -> fields !! f = Some fd ->
      ftype fd = TRelation -> is_Some (ms !! js_key (relation fd))) ->
  is_Some (ms !! js_key model) ->
  exists r, resolveParts ms parts stack model field = Ret r.
Proof.
  induction parts as [|part parts IH]; intros stack model field Hc [fields Hm].
  - simpl. eauto.
  - simpl. rewrite Hm. simpl.
    destruct (fields !! part) as [fd|] eqn:Hf; [|eauto].
    destruct (bool_decide (ftype fd = TRelation)) eqn:Ht.
    + apply IH; [done|]. apply bool_decide_eq_true in Ht. eauto.
    + apply IH; [done|]. eauto.
Qed.

(** C5 (as stated, refuted): with the relation [owner] of [shop.item]
    pointing at [shop.ghost], which is no key of [models], resolving
    [owner.id] does not give the unknown result: it throws. *)
Lemma resolveName_dangling_counterexample :
  (Examples.item !! "owner" = Some (Books.rel "shop.ghost")
   /\ models Examples.dangling !! "shop.item" = Some Examples.item
   /\ models Examples.dangling !! "shop.ghost" = None)
  /\ resolveName Examples.dangling "owner.id" = Throw
  /\ ~ (exists stack,
         resolveName Examples.dangling "owner.id"
         = Ret (mkResolved stack None None)).
Proof.
  split; [repeat split; reflexivity|].
  assert (H : resolveName Examples.dangling "owner.id" = Throw)
    by reflexivity.
  split; [exact H|]. intros [stack Hs]. rewrite H in Hs. discriminate.
Qed.

(** C5 (amended): when a dotted name walks into a relation field whose
    target is not a key of [models], [resolveName] returns that target as
    the model (with no field) if the relation is the last segment, and
    throws a [TypeError] if at least one more segment follows. *)
Theorem resolveName_dangling_relation
    this name pre part rest stack model fields fd :
  truthy (currentModel this) = true ->
  JsString.split_dot name = pre ++ part :: rest ->
  reaches this pre stack model ->
  models this !! js_key model = Some fields ->
  fields !! part = Some fd ->
  ftype fd = TRelation ->
  models this !! js_key (relation fd) = None ->
  resolveName this name
  = match rest with
    | [] => Ret (mkResolved (stack ++ [relation fd]) (relation fd) None)
    | _ :: _ => Throw
    end.
Proof.
  intros Hcm Hsplit [field Hwalk] Hm Hf Ht Hdangling.
  rewrite resolveName_truthy, Hsplit by done.
  rewrite (resolveParts_walk _ _ _ _ _ _ _ _ _ Hwalk).
  simpl. rewrite Hm. simpl. rewrite Hf.
  rewrite bool_decide_eq_true_2 by done.
  destruct rest as [|next rest]; [done|].
  by apply resolveParts_missing_model.
Qed.

Lemma resolveName_dangling_relation_witness :
  resolveName Examples.dangling "owner.id" = Throw.
Proof.
  apply (resolveName_dangling_relation Examples.dangling "owner.id"
           [] "owner" ["id"] [Some "shop.item"] (Some "shop.item")
           Examples.item (Books.rel "shop.ghost")).
  - reflexivity.
  - reflexivity.
  - exists None. reflexivity.
  - reflexivity.
  - reflexivity.
  - reflexivity.
  - reflexivity.
Defined.



(** C10: when a current model is set, the stack [resolveName] returns
    starts with the current model (so it is not empty), and a model that
    is returned is the last element of that stack. On a closed schema
    [resolveName] does return. *)
Theorem resolveName_modelStack this name :
  truthy (currentModel this) = true ->
  (schema_closed this -> exists r, resolveName this name = Ret r)
  /\ forall r,
       resolveName this name = Ret r ->
       res_modelStack r <> []
       /\ head (res_modelStack r) = Some (currentModel this)
       /\ forall m, res_model r = Some m ->
                    last (res_modelStack r) = Some (Some m).
Proof.
  intros Hcm. rewrite resolveName_truthy by done. split.
  - intros [Hcur Hrel]. by apply resolveParts_total.
  - intros r Hr.
    apply (resolveParts_stack _ (currentModel this)) in Hr as [Hh Hl];
      [|done..].
    split; [by destruct (res_modelStack r)|].
    split; [done|].
    intros m Hm. destruct Hl as [Hl|Hl]; congruence.
Qed.

(** The schema of the test suite is closed. *)
Lemma Books_schema_closed : schema_closed Books.djangoQL.
Proof.
  split; [by eexists|].
  intros m fields f fd Hm Hf Ht.
  apply elem_of_list_to_map_2 in Hm.
  repeat (apply elem_of_cons in Hm as [[= -> ->]|Hm]);
    [..|by apply elem_of_nil in Hm];
    apply elem_of_list_to_map_2 in Hf;
    repeat (apply elem_of_cons in Hf as [[= -> ->]|Hf]);
    try (by apply elem_of_nil in Hf); try discriminate Ht;
    by eexists.
Qed.

Lemma resolveName_modelStack_witness :
  truthy (currentModel Books.djangoQL) = true
  /\ (exists r, resolveName Books.djangoQL "author.groups" = Ret r)
  /\ resolveName Books.djangoQL "author.groups"
     = Ret (mkResolved
              [Some "core.book"; Some "auth.user"; Some "auth.group"]
              (Some "auth.group") None)
  /\ head [Some "core.book"; Some "auth.user"; Some "auth.group"]
     = Some (currentModel Books.djangoQL)
  /\ last [Some "core.book"; Some "auth.user"; Some "auth.group"]
     = Some (Some "auth.group").
Proof.
  assert (Hcm : truthy (currentModel Books.djangoQL) = true) by reflexivity.
  assert (Hr : resolveName Books.djangoQL "author.groups"
               = Ret (mkResolved
                        [Some "core.book"; Some "auth.user"; Some "auth.group"]
                        (Some "auth.group") None))
    by reflexivity.
  destruct (resolveName_modelStack Books.djangoQL "author.groups" Hcm)
    as [Htotal Hstack].
  destruct (Hstack _ Hr) as (_ & Hhead & Hlast).
  split; [exact Hcm|]. split; [exact (Htotal Books_schema_closed)|].
  split; [exact Hr|].
  split; [exact Hhead|]. exact (Hlast "auth.group" eq_refl).
Defined.

(** ** [getContext] *)

(** For a value that is not the empty string, truthy means non-null. *)
Lemma truthy_non_null (v : option string) :
  v <> Some EmptyString -> (truthy v = true <-> v <> None).
Proof.
  destruct v as [s|]; simpl.
  - intros Hne. split; [discriminate|]. intros _.
    destruct (String.eqb_spec s EmptyString) as [->|]; [done|reflexivity].
  - intros _. split; [discriminate|]. intros H. by destruct H.
Qed.

Lemma falsy_null (v : option string) :
  v <> Some EmptyString -> (truthy v = false <-> v = None).
Proof.
  intros Hne. destruct (truthy_non_null v Hne) as [H1 H2].
  destruct v as [s|]; split; intros H; try done.
  rewrite H2 in H; done.
Qed.

(** The field branch with a dotted prefix, in the terms of the test the
    code applies to the resolved name. *)
Lemma fieldBranch_dotted this text cursorPos full r :
  let c := cursor this text cursorPos in
  dispatch c = FieldBranch ->
  fieldPrefix c text cursorPos = Ret full ->
  (1 < length (JsString.split_dot full))%nat ->
  resolveName this
    (JsString.join_dot (removelast (JsString.split_dot full))) = Ret r ->
  exists ctx,
    getContext this text cursorPos = Ret ctx
    /\ ctx_prefix ctx = List.last (JsString.split_dot full) EmptyString
    /\ (truthy (res_model r) = true /\ truthy (res_field r) = false ->
        ctx_scope ctx = Some ScopeField
        /\ ctx_model ctx = res_model r
        /\ ctx_modelStack ctx = res_modelStack r)
    /\ (~ (truthy (res_model r) = true /\ truthy (res_field r) = false) ->
        ctx_scope ctx = None /\ ctx_model ctx = None).
Proof.
  intros c Hd Hfull Hlen Hr.
  unfold getContext. fold c. rewrite Hd. unfold fieldBranch.
  rewrite Hfull. simpl.
  apply Nat.ltb_lt in Hlen. rewrite Hlen, Hr. simpl.
  destruct (truthy (res_model r)) eqn:Hm,
           (truthy (res_field r)) eqn:Hf; simpl;
    eexists; (split; [reflexivity|]); simpl;
    (split; [reflexivity|]); split; try tauto; intros [? ?]; try discriminate.
Qed.

(** C4: in the field branch, when the prefix splits into several parts
    at its dots, the last part is the returned prefix and the parts
    before it go through [resolveName]. If that yields a model and no
    field, the context takes that model and its stack and stays in field
    scope; on any other result the scope and the model are null. The
    code decides this by [model && !field]; for resolved names that are
    not the empty string this is the test: model non-null, field
    null. *)
Theorem getContext_field_dotted this text cursorPos full r :
  let c := cursor this text cursorPos in
  dispatch c = FieldBranch ->
  fieldPrefix c text cursorPos = Ret full ->
  (1 < length (JsString.split_dot full))%nat ->
  resolveName this
    (JsString.join_dot (removelast (JsString.split_dot full))) = Ret r ->
  exists ctx,
    getContext this text cursorPos = Ret ctx
    /\ ctx_prefix ctx = List.last (JsString.split_dot full) EmptyString
    /\ (truthy (res_model r) = true /\ truthy (res_field r) = false ->
        ctx_scope ctx = Some ScopeField
        /\ ctx_model ctx = res_model r
        /\ ctx_modelStack ctx = res_modelStack r)
    /\ (~ (truthy (res_model r) = true /\ truthy (res_field r) = false) ->
        ctx_scope ctx = None /\ ctx_model ctx = None)
    /\ (res_model r <> Some EmptyString ->
        res_field r <> Some EmptyString ->
        (res_model r <> None /\ res_field r = None ->
         ctx_scope ctx = Some ScopeField
         /\ ctx_model ctx = res_model r
         /\ ctx_modelStack ctx = res_modelStack r)
        /\ (~ (res_model r <> None /\ res_field r = None) ->
            ctx_scope ctx = None /\ ctx_model ctx = None)).
Proof.
  intros c Hd Hfull Hlen Hr.
  destruct (fieldBranch_dotted this text cursorPos full r Hd Hfull Hlen Hr)
    as (ctx & Hctx & Hprefix & Hyes & Hno).
  exists ctx. split; [exact Hctx|]. split; [exact Hprefix|].
  split; [exact Hyes|]. split; [exact Hno|].
  intros Hm Hf.
  pose proof (truthy_non_null _ Hm) as Hm'.
  pose proof (falsy_null _ Hf) as Hf'.
  split.
  - intros [? ?]. apply Hyes. tauto.
  - intros Hnot. apply Hno. tauto.
Qed.

Lemma getContext_field_dotted_witness :
  exists ctx,
    getContext Books.djangoQL "id > 1 and author.i" 19 = Ret ctx
    /\ ctx_prefix ctx = "i"
    /\ ctx_scope ctx = Some ScopeField
    /\ ctx_model ctx = Some "auth.user"
    /\ ctx_modelStack ctx = [Some "core.book"; Some "auth.user"].
Proof.
  destruct (getContext_field_dotted Books.djangoQL "id > 1 and author.i" 19
              "author.i"
              (mkResolved [Some "core.book"; Some "auth.user"]
                 (Some "auth.user") None))
    as (ctx & Hctx & Hprefix & Hmodel & _).
  - vm_compute. reflexivity.
  - vm_compute. reflexivity.
  - vm_compute. lia.
  - reflexivity.
  - exists ctx. split; [exact Hctx|]. split; [exact Hprefix|].
    apply Hmodel. split; reflexivity.
Defined.

Lemma drop_one_shorter (s : string) :
  s <> EmptyString -> JsString.drop 1 s <> s.
Proof.
  destruct s as [|c s]; [done|]. intros _ H. simpl in H.
  apply (f_equal String.length) in H. simpl in H. lia.
Qed.

(** C7 (as stated, refuted): [stars] is a numeric field with an inline
    list of options; after [stars = ] followed by a double quote the
    quote is stripped from the returned prefix. *)
Lemma getContext_value_quote_counterexample :
  let text := "stars = " +:+ String JsString.dquote EmptyString in
  let this := Examples.rated text 9 in
  Examples.review !! "stars" = Some Examples.stars
  /\ ftype Examples.stars = TInt
  /\ cur_prefix (cursor this text 9) = String JsString.dquote EmptyString
  /\ getContext this text 9
     = Ret (mkContext EmptyString (Some ScopeValue) (Some "core.review")
              (Some "stars") None [Some "core.review"]).
Proof.
  split; [reflexivity|]. split; [reflexivity|].
  split; vm_compute; reflexivity.
Qed.

(** A field that [resolveName] returns is a field of the model it
    returns. *)
Lemma resolveParts_field ms parts : forall stack model field r,
  resolveParts ms parts stack model field = Ret r ->
  (forall f, field = Some f ->
     exists fields fd, ms !! js_key model = Some fields
                       /\ fields !! f = Some fd) ->
  forall f, res_field r = Some f ->
    exists fields fd, ms !! js_key (res_model r) = Some fields
                      /\ fields !! f = Some fd.
Proof.
  induction parts as [|part parts IH]; intros stack model field r Hr Hinv.
  - simpl in Hr. inversion Hr; subst; simpl. exact Hinv.
  - simpl in Hr.
    destruct (ms !! js_key model) as [fields|] eqn:Hm; [|discriminate].
    simpl in Hr.
    destruct (fields !! part) as [fd|] eqn:Hf.
    + destruct (bool_decide (ftype fd = TRelation)).
      * apply (IH _ _ _ _ Hr). intros f [=].
      * apply (IH _ _ _ _ Hr). intros f [= <-]. eauto.
    + inversion Hr; subst; simpl. intros f [=].
Qed.

Lemma resolveName_field this name r f :
  resolveName this name = Ret r ->
  res_field r = Some f ->
  exists fields fd, models this !! js_key (res_model r) = Some fields
                    /\ fields !! f = Some fd.
Proof.
  unfold resolveName. destruct (truthy (currentModel this)).
  - intros Hr. apply (resolveParts_field _ _ _ _ _ _ Hr). intros f' [=].
  - intros [= <-]. simpl. intros [=].
Qed.

(** The value branch with a quoted prefix, given the definition of the
    resolved field. *)
Lemma valueBranch_quote this text cursorPos nt r fields f fd :
  let c := cursor this text cursorPos in
  dispatch c = ValueBranch nt ->
  resolveName this (tok_value nt) = Ret r ->
  truthy (res_model r) = true ->
  JsString.starts_with_quote (cur_prefix c) = true ->
  models this !! js_key (res_model r) = Some fields ->
  res_field r = Some f ->
  fields !! f = Some fd ->
  exists ctx,
    getContext this text cursorPos = Ret ctx
    /\ ctx_scope ctx = Some ScopeValue
    /\ ctx_model ctx = res_model r
    /\ ctx_field ctx = Some f
    /\ (ctx_prefix ctx = JsString.drop 1 (cur_prefix c)
        <-> ftype fd = TStr \/ has_options fd = true)
    /\ (ctx_prefix ctx = cur_prefix c
        <-> ~ (ftype fd = TStr \/ has_options fd = true))
    /\ (ftype fd = TInt \/ ftype fd = TFloat \/ ftype fd = TBool ->
        has_options fd = false ->
        ctx_prefix ctx = cur_prefix c).
Proof.
  intros c Hd Hr Hm Hq Hfields Hf Hfd.
  assert (Hne : JsString.drop 1 (cur_prefix c) <> cur_prefix c).
  { apply drop_one_shorter. intros He. rewrite He in Hq. discriminate. }
  unfold getContext. fold c. rewrite Hd. unfold valueBranch.
  rewrite Hr. simpl. rewrite Hm, Hq. unfold quoteStripped.
  rewrite Hfields. simpl. rewrite Hf. simpl. rewrite Hfd. simpl.
  eexists. split; [reflexivity|]. simpl.
  split; [reflexivity|]. split; [reflexivity|]. split; [reflexivity|].
  destruct (bool_decide (ftype fd = TStr)) eqn:Ht.
  - apply bool_decide_eq_true in Ht. simpl.
    split; [tauto|]. split; [|intros [H|[H|H]]; congruence].
    split; [intros H; by symmetry in H|tauto].
  - apply bool_decide_eq_false in Ht. simpl.
    destruct (has_options fd) eqn:Ho.
    + split; [tauto|]. split; [|discriminate].
      split; [intros H; by symmetry in H|tauto].
    + split; [split; [done|intros [?|?]; done]|].
      split; [|done]. split; [intros _ [?|?]; done|done].
Qed.

(** C7 (amended): in the value branch, when the prefix begins with a
    double quote and the name resolves to a field, [getContext] returns,
    and the quote is stripped from the returned prefix exactly when that
    field is string-typed or has options, whatever its type; so for a
    numeric or boolean field without options the quote stays. *)
Theorem getContext_value_quote this text cursorPos nt r f :
  let c := cursor this text cursorPos in
  dispatch c = ValueBranch nt ->
  resolveName this (tok_value nt) = Ret r ->
  truthy (res_model r) = true ->
  JsString.starts_with_quote (cur_prefix c) = true ->
  res_field r = Some f ->
  exists fields fd ctx,
    models this !! js_key (res_model r) = Some fields
    /\ fields !! f = Some fd
    /\ getContext this text cursorPos = Ret ctx
    /\ ctx_scope ctx = Some ScopeValue
    /\ ctx_model ctx = res_model r
    /\ ctx_field ctx = Some f
    /\ (ctx_prefix ctx = JsString.drop 1 (cur_prefix c)
        <-> ftype fd = TStr \/ has_options fd = true)
    /\ (ctx_prefix ctx = cur_prefix c
        <-> ~ (ftype fd = TStr \/ has_options fd = true))
    /\ (ftype fd = TInt \/ ftype fd = TFloat \/ ftype fd = TBool ->
        has_options fd = false ->
        ctx_prefix ctx = cur_prefix c).
Proof.
  intros c Hd Hr Hm Hq Hf.
  destruct (resolveName_field _ _ _ _ Hr Hf) as (fields & fd & Hfields & Hfd).
  destruct (valueBranch_quote this text cursorPos nt r fields f fd
              Hd Hr Hm Hq Hfields Hf Hfd) as (ctx & Hctx).
  exists fields, fd, ctx. tauto.
Qed.

Lemma getContext_value_quote_witness :
  let text := "title = " +:+ String JsString.dquote "ab" in
  exists ctx,
    getContext (Examples.rated text 11) text 11 = Ret ctx
    /\ ctx_scope ctx = Some ScopeValue
    /\ ctx_field ctx = Some "title"
    /\ ctx_prefix ctx = "ab".
Proof.
  intros text.
  destruct (getContext_value_quote (Examples.rated text 11) text 11
              (mkToken NAME "title" 0 5)
              (mkResolved [Some "core.review"] (Some "core.review")
                 (Some "title"))
              "title")
    as (fields & fd & ctx & Hfields & Hfd & Hctx & Hscope & _ & Hfield
        & Hstrip & _).
  - vm_compute. reflexivity.
  - reflexivity.
  - reflexivity.
  - vm_compute. reflexivity.
  - reflexivity.
  - exists ctx. split; [exact Hctx|]. split; [exact Hscope|].
    split; [exact Hfield|].
    apply Hstrip. left.
    assert (Some fields = Some Examples.review) as [= ->]
      by (rewrite <- Hfields; reflexivity).
    assert (Some fd = Some (Books.scalar TStr)) as [= ->]
      by (rewrite <- Hfd; reflexivity).
    reflexivity.
Defined.

(** ** [generateSuggestions] *)

(** [getContext] reads the lexer, the schema and the current model
    only. *)
Lemma getContext_frame this1 this2 text cursorPos :
  lexer this1 = lexer this2 ->
  models this1 = models this2 ->
  currentModel this1 = currentModel this2 ->
  getContext this1 text cursorPos = getContext this2 text cursorPos.
Proof.
  intros Hl Hm Hc.
  assert (Hcur : cursor this1 text cursorPos = cursor this2 text cursorPos).
  { unfold cursor, cursorTokens. by rewrite Hl. }
  assert (Hres : forall name, resolveName this1 name = resolveName this2 name).
  { intros name. unfold resolveName. by rewrite Hm, Hc. }
  unfold getContext. rewrite Hcur.
  destruct (dispatch (cursor this2 text cursorPos)).
  - unfold unscoped. by rewrite Hc.
  - unfold fieldBranch, unscoped.
    destruct (fieldPrefix _ _ _); simpl; [|done].
    rewrite Hc. destruct (_ <? _)%nat; [|done]. by rewrite Hres.
  - unfold valueBranch, unscoped, quoteStripped. rewrite Hres, Hm, Hc. done.
  - unfold comparisonBranch, unscoped. rewrite Hres, Hc. done.
  - unfold unscoped. by rewrite Hc.
  - unfold unscoped. by rewrite Hc.
Qed.

(** A context in field scope names no field. *)
Lemma getContext_field_scope this text cursorPos ctx :
  getContext this text cursorPos = Ret ctx ->
  ctx_scope ctx = Some ScopeField ->
  ctx_field ctx = None.
Proof.
  unfold getContext.
  destruct (dispatch (cursor this text cursorPos)); simpl.
  - by intros [= <-].
  - unfold fieldBranch.
    destruct (fieldPrefix _ _ _) as [prefix|]; simpl; [|done].
    destruct (_ <? _)%nat.
    + destruct (resolveName _ _) as [r|]; simpl; [|done].
      destruct (_ && _); by intros [= <-].
    + by intros [= <-].
  - unfold valueBranch.
    destruct (resolveName _ _) as [r|]; simpl; [|done].
    destruct (truthy _); [|by intros [= <-]].
    destruct (JsString.starts_with_quote _); simpl.
    + destruct (quoteStripped _ _ _); simpl; [|done]. by intros [= <-].
    + by intros [= <-].
  - unfold comparisonBranch.
    destruct (resolveName _ _) as [r|]; simpl; [|done].
    destruct (truthy _); by intros [= <-].
  - by intros [= <-].
  - by intros [= <-].
Qed.

(** Past its guards, [generateSuggestions] is the [switch] followed by
    the search filter. *)
Lemma generateSuggestions_ready this ctx :
  ready this ->
  contextAtCursor this = Ret ctx ->
  generateSuggestions this
  = and_then
      (scopeSuggestions ctx
         (with_prefix (ctx_prefix ctx) (with_highlightCaseSensitive true this)))
      (fun this' => Normal (filterAndSelect (filterOf (ctx_scope ctx)) this')).
Proof.
  intros (Hen & Hcm & Hsel) Hctx. unfold generateSuggestions.
  rewrite Hen, Hcm, <- Hsel, Nat.eqb_refl. cbn [negb].
  unfold contextAtCursor in Hctx.
  rewrite (getContext_frame (with_highlightCaseSensitive true this) this)
    by done.
  rewrite Hctx. reflexivity.
Qed.

Lemma backReference_spec modelStack fd :
  backReference modelStack fd = true
  <-> ftype fd = TRelation
      /\ relation fd ∈ modelStack
      /\ last modelStack <> Some (relation fd).
Proof.
  unfold backReference.
  rewrite !andb_true_iff, !bool_decide_eq_true. tauto.
Qed.

(** The names the ['field'] case offers: the fields of the model that
    are no back-reference. *)
Lemma fieldSuggestions_elem (model : Model) modelStack (s : Suggestion) :
  s ∈ fieldSuggestions model modelStack
  <-> exists fd,
        model !! text s = Some fd
        /\ backReference modelStack fd = false
        /\ s = suggestion (text s) EmptyString
                 (if bool_decide (ftype fd = TRelation) then "." else " ")
                 None.
Proof.
  unfold fieldSuggestions.
  rewrite list_elem_of_In, in_map_iff. split.
  - intros [[f fd] [<- Hin]]. apply filter_In in Hin as [Hin Hb].
    apply list_elem_of_In, elem_of_map_to_list in Hin.
    exists fd. simpl. by rewrite negb_true_iff in Hb.
  - intros (fd & Hfd & Hb & Hs). exists (text s, fd). split; [done|].
    apply filter_In. split.
    + by apply list_elem_of_In, elem_of_map_to_list.
    + by rewrite Hb.
Qed.

Lemma fieldSuggestions_text (model : Model) modelStack (f : string) :
  f ∈ map text (fieldSuggestions model modelStack)
  <-> exists fd, model !! f = Some fd /\ backReference modelStack fd = false.
Proof.
  rewrite list_elem_of_In, in_map_iff. split.
  - intros (s & <- & Hs).
    apply list_elem_of_In, fieldSuggestions_elem in Hs as (fd & ? & ? & _).
    eauto.
  - intros (fd & Hfd & Hb).
    exists (suggestion f EmptyString
              (if bool_decide (ftype fd = TRelation) then "." else " ") None).
    split; [done|].
    apply list_elem_of_In, fieldSuggestions_elem. exists fd. done.
Qed.

(** In field scope with the model of the context in the schema,
    [generateSuggestions] returns with the fields that are no
    back-reference and contain the prefix. *)
Lemma generateSuggestions_field this ctx (model : Model) :
  ready this ->
  contextAtCursor this = Ret ctx ->
  ctx_scope ctx = Some ScopeField ->
  models this !! js_key (ctx_model ctx) = Some model ->
  exists this',
    generateSuggestions this = Normal this'
    /\ suggestions this'
       = List.filter
           (fun item => JsString.includes (ctx_prefix ctx) (text item))
           (fieldSuggestions model (ctx_modelStack ctx)).
Proof.
  intros Hready Hctx Hscope Hmodel.
  rewrite (generateSuggestions_ready _ _ Hready Hctx).
  unfold scopeSuggestions, contextField.
  rewrite (getContext_field_scope _ _ _ _ Hctx Hscope), Hscope. simpl.
  rewrite Hmodel. simpl. eexists. split; reflexivity.
Qed.

Lemma filter_text_elem (P : Suggestion -> bool) (l : list Suggestion)
    (g : string -> bool) (f : string) :
  (forall s, P s = g (text s)) ->
  f ∈ map text (List.filter P l) <-> g f = true /\ f ∈ map text l.
Proof.
  intros HP. rewrite !list_elem_of_In, !in_map_iff. split.
  - intros (s & <- & Hs). apply filter_In in Hs as [Hs Hp].
    rewrite HP in Hp. eauto.
  - intros [Hg (s & <- & Hs)]. exists s. split; [done|].
    apply filter_In. by rewrite HP.
Qed.

(** On a closed schema a model that [resolveName] returns is a key of
    [models]. *)
Lemma resolveParts_model_defined ms parts : forall stack model field r,
  (forall m fields f fd,
      ms !! m = Some fields -> fields !! f = Some fd ->
      ftype fd = TRelation -> is_Some (ms !! js_key (relation fd))) ->
  is_Some (ms !! js_key model) ->
  resolveParts ms parts stack model field = Ret r ->
  truthy (res_model r) = true ->
  is_Some (ms !! js_key (res_model r)).
Proof.
  induction parts as [|part parts IH];
    intros stack model field r Hc Hm Hr Ht.
  - simpl in Hr. by inversion Hr; subst.
  - simpl in Hr. destruct Hm as [fields Hm]. rewrite Hm in Hr. simpl in Hr.
    destruct (fields !! part) as [fd|] eqn:Hf.
    + destruct (bool_decide (ftype fd = TRelation)) eqn:Hrel.
      * apply bool_decide_eq_true in Hrel.
        apply (IH _ _ _ _ Hc (Hc _ _ _ _ Hm Hf Hrel) Hr Ht).
      * apply (IH _ _ _ _ Hc (ex_intro _ fields Hm) Hr Ht).
    + inversion Hr; subst. discriminate Ht.
Qed.

(** On a closed schema the model of a context in field scope is a key
    of [models]: [Object.keys(model)] does not throw. *)
Lemma field_scope_model_defined this text cursorPos ctx :
  schema_closed this ->
  getContext this text cursorPos = Ret ctx ->
  ctx_scope ctx = Some ScopeField ->
  is_Some (models this !! js_key (ctx_model ctx)).
Proof.
  intros [Hcur Hrel]. unfold getContext.
  destruct (dispatch (cursor this text cursorPos)); simpl.
  - by intros [= <-].
  - unfold fieldBranch.
    destruct (fieldPrefix _ _ _) as [prefix|]; simpl; [|done].
    destruct (_ <? _)%nat.
    + destruct (resolveName _ _) as [r|] eqn:Hr; simpl; [|done].
      destruct (truthy (res_model r)) eqn:Ht; simpl;
        [|by intros [= <-]].
      destruct (negb _); [|by intros [= <-]].
      intros [= <-] _. simpl.
      unfold resolveName in Hr.
      destruct (truthy (currentModel this)).
      * by apply (resolveParts_model_defined _ _ _ _ _ _ Hrel Hcur Hr).
      * by inversion Hr; subst.
    + by intros [= <-].
  - unfold valueBranch.
    destruct (resolveName _ _) as [r|]; simpl; [|done].
    destruct (truthy _); [|by intros [= <-]].
    destruct (JsString.starts_with_quote _); simpl.
    + destruct (quoteStripped _ _ _); simpl; [|done]. by intros [= <-].
    + by intros [= <-].
  - unfold comparisonBranch.
    destruct (resolveName _ _) as [r|]; simpl; [|done].
    destruct (truthy _); by intros [= <-].
  - by intros [= <-].
  - by intros [= <-].
Qed.

(** So on a closed schema [generateSuggestions] returns whenever the
    cursor is in field scope. *)
Lemma generateSuggestions_field_returns this ctx :
  ready this ->
  schema_closed this ->
  contextAtCursor this = Ret ctx ->
  ctx_scope ctx = Some ScopeField ->
  returned (generateSuggestions this) = true.
Proof.
  intros Hready Hclosed Hctx Hscope.
  destruct (field_scope_model_defined _ _ _ _ Hclosed Hctx Hscope)
    as [model Hmodel].
  destruct (generateSuggestions_field _ _ _ Hready Hctx Hscope Hmodel)
    as (this' & -> & _).
  reflexivity.
Qed.

(** C1 (as stated, refuted): from [core.book], after
    [author.groups.user.] the stack is book, user, group, user. The
    relation [book] of [auth.user] points at [core.book], which is in
    the stack three hops back and is not its last element; it is
    nevertheless left out of the suggestions. *)
Lemma field_suppression_counterexample :
  let this := Books.engine Books.schema "core.book" "author.groups.user." 19 in
  let stack := [Some "core.book"; Some "auth.user";
                Some "auth.group"; Some "auth.user"] in
  contextAtCursor this
  = Ret (mkContext EmptyString (Some ScopeField) (Some "auth.user") None
           (Some (mkToken DOT "." 18 19)) stack)
  /\ Books.auth_user !! "book" = Some (Books.rel "core.book")
  /\ relation (Books.rel "core.book") ∈ stack
  /\ last stack <> Some (relation (Books.rel "core.book"))
  /\ returned (generateSuggestions this) = true
  /\ offers (generateSuggestions this) "book" = false.
Proof.
  split; [vm_compute; reflexivity|]. split; [reflexivity|].
  split; [is_offered|]. split; [discriminate|].
  split; vm_compute; reflexivity.
Qed.

(** C1 (amended): in field scope a field of the model is left out of
    the suggestions by the back-reference test exactly when it is a
    relation whose target is in [modelStack] and is not the last element
    of [modelStack]. A relation whose target is the last element is
    offered; one whose target sits elsewhere in the stack is not. *)
Theorem field_suppression this ctx (model : Model) :
  ready this ->
  contextAtCursor this = Ret ctx ->
  ctx_scope ctx = Some ScopeField ->
  models this !! js_key (ctx_model ctx) = Some model ->
  exists this',
    generateSuggestions this = Normal this'
    /\ forall f fd,
         model !! f = Some fd ->
         JsString.includes (ctx_prefix ctx) f = true ->
         (f ∉ map text (suggestions this')
          <-> ftype fd = TRelation
              /\ relation fd ∈ ctx_modelStack ctx
              /\ last (ctx_modelStack ctx) <> Some (relation fd)).
Proof.
  intros Hready Hctx Hscope Hmodel.
  destruct (generateSuggestions_field _ _ _ Hready Hctx Hscope Hmodel)
    as (this' & Hgen & Hsugg).
  exists this'. split; [exact Hgen|].
  intros f fd Hfd Hinc. rewrite Hsugg.
  rewrite (filter_text_elem _ _ (JsString.includes (ctx_prefix ctx)))
    by done.
  rewrite fieldSuggestions_text, <- backReference_spec. split.
  - intros Hnot. destruct (backReference _ fd) eqn:Hb; [done|].
    destruct Hnot. eauto.
  - intros Hb [_ (fd' & Hfd' & Hb')]. congruence.
Qed.

Lemma field_suppression_witness :
  let this := Books.engine Books.schema "core.book" "author." 7 in
  exists this',
    generateSuggestions this = Normal this'
    /\ ("book" ∉ map text (suggestions this'))
    /\ ("groups" ∈ map text (suggestions this')).
Proof.
  intros this.
  destruct (field_suppression this
              (mkContext EmptyString (Some ScopeField) (Some "auth.user") None
                 (Some (mkToken DOT "." 6 7))
                 [Some "core.book"; Some "auth.user"])
              Books.auth_user)
    as (this' & Hgen & Hiff).
  - repeat split; reflexivity.
  - vm_compute. reflexivity.
  - reflexivity.
  - reflexivity.
  - exists this'. split; [exact Hgen|]. split.
    + apply (Hiff "book" (Books.rel "core.book")); [reflexivity..|].
      split; [reflexivity|]. split; [is_offered|discriminate].
    + destruct (decide ("groups" ∈ map text (suggestions this')))
        as [Hin|Hout]; [exact Hin|].
      apply (Hiff "groups" (Books.rel "auth.group")) in Hout
        as (_ & Hin & _); [|reflexivity..].
      exfalso. revert Hin. clear. not_offered.
Defined.

(** C2 (as stated, refuted): [tree.node] has the relation [parent] to
    itself. After [parent.] the stack is node, node; [parent] points at
    the element just before the last one and is offered. *)
Lemma no_immediate_cycle_counterexample :
  let this := Examples.tree "parent." 7 in
  let stack := [Some "tree.node"; Some "tree.node"] in
  contextAtCursor this
  = Ret (mkContext EmptyString (Some ScopeField) (Some "tree.node") None
           (Some (mkToken DOT "." 6 7)) stack)
  /\ Examples.node !! "parent" = Some (Books.rel "tree.node")
  /\ stack !! (length stack - 2)%nat = Some (relation (Books.rel "tree.node"))
  /\ offers (generateSuggestions this) "parent" = true.
Proof.
  split; [vm_compute; reflexivity|]. split; [reflexivity|].
  split; [reflexivity|]. vm_compute. reflexivity.
Qed.

(** C2 (amended): in field scope the suggestions never include a
    relation field whose target equals the element just before the last
    one of [modelStack], unless that target is also the last element (a
    relation of the model to itself). From [auth.group], after
    [user.book.] the relation [author] is not offered. *)
Theorem no_immediate_cycle :
  (forall this ctx (model : Model),
      ready this ->
      contextAtCursor this = Ret ctx ->
      ctx_scope ctx = Some ScopeField ->
      models this !! js_key (ctx_model ctx) = Some model ->
      exists this',
        generateSuggestions this = Normal this'
        /\ forall f fd,
             f ∈ map text (suggestions this') ->
             model !! f = Some fd ->
             ftype fd = TRelation ->
             (2 <= length (ctx_modelStack ctx))%nat ->
             ctx_modelStack ctx !! (length (ctx_modelStack ctx) - 2)%nat
             = Some (relation fd) ->
             last (ctx_modelStack ctx) = Some (relation fd))
  /\ (let this := Books.engine Books.schema "auth.group" "user.book." 10 in
      Books.core_book !! "author" = Some (Books.rel "auth.user")
      /\ returned (generateSuggestions this) = true
      /\ offers (generateSuggestions this) "author" = false).
Proof.
  split.
  - intros this ctx model Hready Hctx Hscope Hmodel.
    destruct (generateSuggestions_field _ _ _ Hready Hctx Hscope Hmodel)
      as (this' & Hgen & Hsugg).
    exists this'. split; [exact Hgen|].
    intros f fd Hin Hfd Hrel _ Hprev. rewrite Hsugg in Hin.
    apply (filter_text_elem _ _ (JsString.includes (ctx_prefix ctx))) in Hin;
      [|done].
    destruct Hin as [_ Hin].
    apply fieldSuggestions_text in Hin as (fd' & Hfd' & Hb).
    assert (fd' = fd) as -> by congruence.
    destruct (decide (last (ctx_modelStack ctx) = Some (relation fd)))
      as [|Hlast]; [done|].
    assert (backReference (ctx_modelStack ctx) fd = true); [|congruence].
    apply backReference_spec. split; [done|]. split; [|done].
    by eapply list_elem_of_lookup_2.
  - split; [reflexivity|]. split; vm_compute; reflexivity.
Qed.

Lemma no_immediate_cycle_witness :
  let this := Examples.tree "parent." 7 in
  exists this',
    generateSuggestions this = Normal this'
    /\ ("parent" ∈ map text (suggestions this') ->
        last [Some "tree.node"; Some "tree.node"] = Some (Some "tree.node")).
Proof.
  intros this.
  destruct no_immediate_cycle as [Hgeneral _].
  destruct (Hgeneral this
              (mkContext EmptyString (Some ScopeField) (Some "tree.node") None
                 (Some (mkToken DOT "." 6 7))
                 [Some "tree.node"; Some "tree.node"])
              Examples.node)
    as (this' & Hgen & Hcycle).
  - repeat split; reflexivity.
  - vm_compute. reflexivity.
  - reflexivity.
  - reflexivity.
  - exists this'. split; [exact Hgen|]. intros Hin.
    apply (Hcycle "parent" (Books.rel "tree.node") Hin);
      [reflexivity|reflexivity|simpl; lia|reflexivity].
Defined.

(** [starts_with] is prefix-anchored. *)
Lemma starts_with_spec (p s : string) :
  JsString.starts_with p s = true <-> exists rest, s = p +:+ rest.
Proof.
  unfold JsString.starts_with. revert s.
  induction p as [|a p IH]; intros [|b s]; simpl.
  - split; [intros _; by exists EmptyString|done].
  - split; [intros _; by exists (String b s)|done].
  - split; [done|]. by intros [rest ?].
  - destruct (ascii_dec a b) as [->|Hne].
    + rewrite IH. split; intros [rest Hr]; exists rest.
      * by rewrite Hr.
      * by inversion Hr.
    + split; [done|]. intros [rest Hr]. by inversion Hr.
Qed.

(** In comparison scope the field of the context, if any, is defined in
    the model of the context: reading it does not throw. *)
Lemma getContext_comparison_field this text cursorPos ctx :
  getContext this text cursorPos = Ret ctx ->
  ctx_scope ctx = Some ScopeComparison ->
  exists field, contextField this ctx = Ret field.
Proof.
  unfold getContext.
  destruct (dispatch (cursor this text cursorPos)); simpl.
  - by intros [= <-].
  - unfold fieldBranch.
    destruct (fieldPrefix _ _ _) as [prefix|]; simpl; [|done].
    destruct (_ <? _)%nat.
    + destruct (resolveName _ _) as [r|]; simpl; [|done].
      destruct (_ && _); by intros [= <-].
    + by intros [= <-].
  - unfold valueBranch.
    destruct (resolveName _ _) as [r|]; simpl; [|done].
    destruct (truthy _); [|by intros [= <-]].
    destruct (JsString.starts_with_quote _); simpl.
    + destruct (quoteStripped _ _ _); simpl; [|done]. by intros [= <-].
    + by intros [= <-].
  - unfold comparisonBranch.
    destruct (resolveName _ _) as [r|] eqn:Hr; simpl; [|done].
    destruct (truthy (res_model r)); [|by intros [= <-]].
    intros [= <-] _. unfold contextField. simpl.
    destruct (res_field r) as [f|] eqn:Hf; simpl; [|eauto].
    destruct (resolveName_field _ _ _ _ Hr Hf) as (fields & fd & Hm & Hfd).
    rewrite Hm. simpl. destruct (negb _); eauto.
  - by intros [= <-].
  - by intros [= <-].
Qed.

(** In comparison scope [generateSuggestions] returns with the
    operators of the field that start with the prefix. *)
Lemma generateSuggestions_comparison this ctx field :
  ready this ->
  contextAtCursor this = Ret ctx ->
  ctx_scope ctx = Some ScopeComparison ->
  contextField this ctx = Ret field ->
  exists this',
    generateSuggestions this = Normal this'
    /\ suggestions this'
       = List.filter
           (fun item => JsString.starts_with (ctx_prefix ctx) (text item))
           (comparisonSuggestions field).
Proof.
  intros Hready Hctx Hscope Hfield.
  rewrite (generateSuggestions_ready _ _ Hready Hctx).
  unfold scopeSuggestions.
  change (contextField (with_prefix _ _) ctx) with (contextField this ctx).
  rewrite Hfield, Hscope. simpl. eexists. split; reflexivity.
Qed.

(** C3 (as stated, refuted): [name] is a string field of [core.book].
    With [st] typed after it, [not startswith] is among the operators of
    the field but does not survive the filter: only [startswith]
    does. *)
Lemma comparison_prefix_counterexample :
  let this := Books.engine Books.schema "core.book" "name st" 7 in
  contextAtCursor this
  = Ret (mkContext "st" (Some ScopeComparison) (Some "core.book")
           (Some "name") (Some (mkToken NAME "st" 5 7)) [Some "core.book"])
  /\ Books.core_book !! "name" = Some (Books.scalar TStr)
  /\ ("not startswith"
      ∈ map text (comparisonSuggestions (Some (Books.scalar TStr))))
  /\ offered (generateSuggestions this) = Some ["startswith"]
  /\ "not startswith" ∉ ["startswith"].
Proof.
  split; [vm_compute; reflexivity|]. split; [reflexivity|].
  split; [is_offered|]. split; [vm_compute; reflexivity|]. not_offered.
Qed.

(** C3 (amended): in comparison scope a suggestion survives the filter
    exactly when its text starts with the typed prefix; containing the
    prefix is not enough. With [st] typed after a string field only
    [startswith] is left: [not startswith], which contains [st] without
    starting with it, and [endswith] are gone. *)
Theorem comparison_prefix_filter :
  (forall this ctx,
      ready this ->
      contextAtCursor this = Ret ctx ->
      ctx_scope ctx = Some ScopeComparison ->
      exists field this',
        contextField this ctx = Ret field
        /\ generateSuggestions this = Normal this'
        /\ forall s,
             s ∈ suggestions this'
             <-> s ∈ comparisonSuggestions field
                 /\ exists rest, text s = ctx_prefix ctx +:+ rest)
  /\ (let this := Books.engine Books.schema "core.book" "name st" 7 in
      Books.core_book !! "name" = Some (Books.scalar TStr)
      /\ offered (generateSuggestions this) = Some ["startswith"]
      /\ JsString.includes "st" "not startswith" = true
      /\ ("not startswith" ∉ ["startswith"])
      /\ ("endswith" ∉ ["startswith"])).
Proof.
  split.
  - intros this ctx Hready Hctx Hscope.
    destruct (getContext_comparison_field _ _ _ _ Hctx Hscope)
      as [field Hfield].
    destruct (generateSuggestions_comparison _ _ _ Hready Hctx Hscope Hfield)
      as (this' & Hgen & Hsugg).
    exists field, this'. split; [exact Hfield|]. split; [exact Hgen|].
    intros s.
    rewrite Hsugg, !list_elem_of_In, filter_In, starts_with_spec. tauto.
  - split; [reflexivity|]. split; [vm_compute; reflexivity|].
    split; [reflexivity|]. split; not_offered.
Qed.

Lemma comparison_prefix_filter_witness :
  let this := Books.engine Books.schema "core.book" "name st" 7 in
  exists this',
    generateSuggestions this = Normal this'
    /\ (suggestion "startswith" EmptyString snippetQuoted None
        ∈ suggestions this').
Proof.
  intros this.
  destruct comparison_prefix_filter as [Hgeneral _].
  destruct (Hgeneral this
              (mkContext "st" (Some ScopeComparison) (Some "core.book")
                 (Some "name") (Some (mkToken NAME "st" 5 7))
                 [Some "core.book"]))
    as (field & this' & Hfield & Hgen & Hiff).
  - repeat split; reflexivity.
  - vm_compute. reflexivity.
  - reflexivity.
  - assert (Ret field = Ret (Some (Books.scalar TStr))) as [= ->]
      by (rewrite <- Hfield; reflexivity).
    exists this'. split; [exact Hgen|]. apply Hiff. split.
    + is_offered.
    + exists "artswith". reflexivity.
Defined.



(** ** The value cache *)

Section LRU.

Context {V : Type}.
Implicit Types (k : string) (c : LRUCache.t V) (l : list (string * V)).

Lemma lru_find_remove_ne k k' l :
  k <> k' -> LRUCache.find k (LRUCache.remove k' l) = LRUCache.find k l.
Proof.
  intros Hne. induction l as [|[k0 v] l IH]; simpl; [done|].
  destruct (String.eqb_spec k' k0) as [->|Hk0]; simpl.
  - rewrite IH. by destruct (String.eqb_spec k k0).
  - by rewrite IH.
Qed.

(** A lookup reorders the cache and leaves what is stored under every
    key as it was. *)
Lemma lru_peek_get k k' c :
  LRUCache.peek k (LRUCache.get k' c).2 = LRUCache.peek k c.
Proof.
  unfold LRUCache.get, LRUCache.peek.
  destruct (LRUCache.find k' (LRUCache.entries c)) as [v|] eqn:Hfind;
    simpl; [|done].
  destruct (String.eqb_spec k k') as [->|Hne]; [by rewrite Hfind|].
  by apply lru_find_remove_ne.
Qed.

Lemma lru_get_peek k c : (LRUCache.get k c).1 = LRUCache.peek k c.
Proof.
  unfold LRUCache.get, LRUCache.peek.
  by destruct (LRUCache.find k (LRUCache.entries c)).
Qed.

Lemma lru_capacity_get k c :
  LRUCache.capacity (LRUCache.get k c).2 = LRUCache.capacity c.
Proof.
  unfold LRUCache.get.
  by destruct (LRUCache.find k (LRUCache.entries c)).
Qed.

(** With room for at least one entry, what was just stored is found. *)
Lemma lru_peek_set k (v : V) c :
  (1 <= LRUCache.capacity c)%nat ->
  LRUCache.peek k (LRUCache.set k v c) = Some v.
Proof.
  unfold LRUCache.set, LRUCache.peek. simpl.
  destruct (LRUCache.capacity c) as [|n]; [lia|]. intros _. simpl.
  by rewrite String.eqb_refl.
Qed.

(** An insertion never leaves more entries than the capacity. *)
Lemma lru_set_bounded k (v : V) c :
  (length (LRUCache.entries (LRUCache.set k v c)) <= LRUCache.capacity c)%nat.
Proof. unfold LRUCache.set. simpl. rewrite length_firstn. lia. Qed.

End LRU.

Lemma cacheGet_entry key this :
  (cacheGet key this).1
  = default empty_entry (LRUCache.peek key (suggestionsCache this)).
Proof.
  unfold cacheGet. rewrite <- lru_get_peek.
  by destruct (LRUCache.get key (suggestionsCache this)).
Qed.

Lemma cacheGet_cache key this :
  suggestionsCache (cacheGet key this).2
  = (LRUCache.get key (suggestionsCache this)).2.
Proof.
  unfold cacheGet.
  by destruct (LRUCache.get key (suggestionsCache this)).
Qed.

(** [populateFieldOptions] only looks the cache up. *)
Lemma populateFieldOptions_peek loadMore this k :
  LRUCache.peek k
    (suggestionsCache (state_of (populateFieldOptions loadMore this)))
  = LRUCache.peek k (suggestionsCache this).
Proof.
  unfold populateFieldOptions, evaluating.
  destruct (getCurrentFieldOptions this) as [[fo|]|]; simpl; [|done..].
  destruct (fo_options fo) as [opts|]; simpl; [done|].
  destruct (fo_cacheKey fo) as [key|]; simpl; [|done].
  pose proof (cacheGet_cache key (with_suggestions [] this)) as Hc.
  destruct (cacheGet key (with_suggestions [] this)) as [cached this'].
  simpl in Hc.
  assert (Hpeek : LRUCache.peek k (suggestionsCache this')
                  = LRUCache.peek k (suggestionsCache this))
    by (rewrite Hc; apply lru_peek_get).
  destruct (negb (entry_loading cached) && _);
    destruct (default [] (items cached)); simpl; exact Hpeek.
Qed.

(** C8: when a page is delivered, it is applied to the entry of its
    cache key, its items appended to the cached ones, exactly when its
    page number is one more than the cached page number, a missing one
    counting as 0; otherwise nothing stored in the cache changes. *)
Theorem page_delivery key data this :
  let before := suggestionsCache this in
  let cached := default empty_entry (LRUCache.peek key before) in
  let after := suggestionsCache (state_of (loadSuccess key data this)) in
  (1 <= LRUCache.capacity before)%nat ->
  (data_page data = (default 0 (page cached) + 1)%Z ->
   LRUCache.peek key after
   = Some {| items := Some (default [] (items cached) ++ data_items data);
             page := Some (data_page data);
             has_next := data_has_next data;
             entry_loading := false |})
  /\ (data_page data <> (default 0 (page cached) + 1)%Z ->
      forall k, LRUCache.peek k after = LRUCache.peek k before).
Proof.
  intros before cached after Hcap. subst after. unfold loadSuccess.
  pose proof (cacheGet_entry key this) as He.
  pose proof (cacheGet_cache key this) as Hc.
  destruct (cacheGet key this) as [cache this']. simpl in He, Hc.
  fold before in He, Hc. fold cached in He. subst cache.
  split.
  - intros Hpage.
    rewrite (proj2 (Z.eqb_eq _ _)) by lia. cbn [negb].
    rewrite populateFieldOptions_peek. simpl.
    apply lru_peek_set. rewrite Hc, lru_capacity_get. exact Hcap.
  - intros Hpage k.
    rewrite (proj2 (Z.eqb_neq _ _)) by lia. cbn [negb state_of].
    rewrite Hc. apply lru_peek_get.
Qed.

Lemma page_delivery_witness :
  LRUCache.peek "core.book.name|W"
    (suggestionsCache
       (state_of (loadSuccess "core.book.name|W"
                    (mkPage ["War and Peace"] 1 true) Books.djangoQL)))
  = Some (mkEntry (Some ["War and Peace"]) (Some 1%Z) true false).
Proof.
  destruct (page_delivery "core.book.name|W"
              (mkPage ["War and Peace"] 1 true) Books.djangoQL)
    as [Happlied _].
  - simpl. lia.
  - apply Happlied. reflexivity.
Defined.

(* ================================================================== *)
(** * Further properties of the code *)

(** ** Strings *)

Lemma append_nil_l (b : string) : EmptyString +:+ b = b.
Proof. reflexivity. Qed.

Lemma append_cons (x : ascii) (a b : string) :
  String x a +:+ b = String x (a +:+ b).
Proof. reflexivity. Qed.

Lemma append_assoc (a b c : string) : (a +:+ b) +:+ c = a +:+ (b +:+ c).
Proof.
  induction a as [|x a IH]; [done|]. rewrite !append_cons. by f_equal.
Qed.

Lemma append_empty_r (a : string) : a +:+ EmptyString = a.
Proof.
  induction a as [|x a IH]; [done|]. rewrite append_cons. by f_equal.
Qed.

Lemma append_length (a b : string) :
  String.length (a +:+ b) = (String.length a + String.length b)%nat.
Proof.
  induction a as [|x a IH]; [done|]. rewrite append_cons. simpl. by f_equal.
Qed.

Lemma substring_zero (n : nat) (s : string) : substring n 0 s = EmptyString.
Proof.
  revert s. induction n as [|n IH]; intros [|c s]; simpl; auto.
Qed.

(** [s.slice(a, b)] is the end of [s.slice(0, b)]. *)
Lemma slice_suffix (a b : nat) (s : string) :
  exists before, JsString.slice 0 b s = before +:+ JsString.slice a b s.
Proof.
  unfold JsString.slice. rewrite Nat.sub_0_r.
  revert a b. induction s as [|c s IH]; intros a b.
  - exists EmptyString. by destruct a, b.
  - destruct b as [|b].
    + exists EmptyString. by rewrite !substring_zero.
    + destruct a as [|a].
      * exists EmptyString. done.
      * destruct (IH a b) as [before Hb]. exists (String c before).
        rewrite append_cons. simpl. by rewrite Hb.
Qed.

Lemma drop_suffix (n : nat) (s : string) :
  exists before, s = before +:+ JsString.drop n s.
Proof.
  revert s. induction n as [|n IH]; intros s.
  - by exists EmptyString.
  - destruct s as [|c s]; [by exists EmptyString|].
    destruct (IH s) as [before Hb]. exists (String c before).
    rewrite append_cons. simpl. by rewrite <- Hb.
Qed.

Lemma split_dot_nonempty (s : string) : JsString.split_dot s <> [].
Proof.
  induction s as [|c s IH]; simpl; [done|].
  destruct (Ascii.eqb c "."); [done|].
  by destruct (JsString.split_dot s).
Qed.

Lemma split_dot_single (s h : string) :
  JsString.split_dot s = [h] -> s = h.
Proof.
  revert h. induction s as [|c s IH]; intros h; simpl; [by intros [= <-]|].
  pose proof (split_dot_nonempty s) as Hne.
  destruct (JsString.split_dot s) as [|h' t]; [done|].
  destruct (Ascii.eqb c "."); [done|].
  intros [= <- ->]. by rewrite (IH h').
Qed.

(** The last part of [s.split('.')] is the end of [s]. *)
Lemma last_split_dot_suffix (s : string) :
  exists before, s = before +:+ List.last (JsString.split_dot s) EmptyString.
Proof.
  induction s as [|c s [before Hb]]; [by exists EmptyString|].
  simpl. pose proof (split_dot_nonempty s) as Hne.
  pose proof (split_dot_single s) as Hsingle.
  destruct (JsString.split_dot s) as [|h t] eqn:Hs; [done|].
  destruct (Ascii.eqb c ".").
  - exists (String c before). rewrite append_cons. simpl in *.
    by rewrite <- Hb.
  - destruct t as [|h' t].
    + exists EmptyString. simpl. by rewrite (Hsingle h).
    + exists (String c before). rewrite append_cons. simpl in *.
      by rewrite <- Hb.
Qed.

Lemma suffix_trans (s mid p before1 before2 : string) :
  s = before1 +:+ mid -> mid = before2 +:+ p ->
  s = (before1 +:+ before2) +:+ p.
Proof. intros -> ->. by rewrite append_assoc. Qed.

Lemma suffix_of_refl (s : string) : suffix_of s s.
Proof. by exists EmptyString. Qed.

Lemma suffix_of_empty (s : string) : suffix_of EmptyString s.
Proof. exists s. by rewrite append_empty_r. Qed.

Lemma suffix_of_trans (p mid s : string) :
  suffix_of p mid -> suffix_of mid s -> suffix_of p s.
Proof.
  intros [b2 H2] [b1 H1]. exists (b1 +:+ b2).
  by apply (suffix_trans s mid).
Qed.

Lemma suffix_of_length (p s : string) :
  suffix_of p s -> (String.length p <= String.length s)%nat.
Proof. intros [b ->]. rewrite append_length. lia. Qed.

Lemma slice_suffix_of (a b : nat) (s : string) :
  suffix_of (JsString.slice a b s) (JsString.slice 0 b s).
Proof. apply slice_suffix. Qed.

Lemma drop_suffix_of (n : nat) (s : string) : suffix_of (JsString.drop n s) s.
Proof. apply drop_suffix. Qed.

Lemma cursor_prefix_suffix this text cursorPos :
  suffix_of (cur_prefix (cursor this text cursorPos))
    (JsString.slice 0 cursorPos text).
Proof.
  unfold cursor.
  destruct (cursorTokens this text cursorPos) as [tokens cft].
  unfold cursorPrefix. simpl.
  eapply suffix_of_trans; [|apply slice_suffix_of].
  fold (rawPrefix (lastTokenOf tokens) text cursorPos).
  set (raw := rawPrefix (lastTokenOf tokens) text cursorPos).
  assert (Hdrop : suffix_of
            match whitespace_match raw with
            | Some n => JsString.drop n raw
            | None => raw
            end raw).
  { destruct (whitespace_match raw); [apply drop_suffix_of|apply suffix_of_refl]. }
  destruct (String.eqb _ "("); [apply suffix_of_empty|exact Hdrop].
Qed.

Lemma getContext_prefix_end this text cursorPos ctx :
  getContext this text cursorPos = Ret ctx ->
  suffix_of (ctx_prefix ctx) (JsString.slice 0 cursorPos text).
Proof.
  intros Hctx.
  pose proof (cursor_prefix_suffix this text cursorPos) as Hcur.
  revert Hctx. unfold getContext.
  destruct (dispatch (cursor this text cursorPos)); simpl.
  - by intros [= <-].
  - unfold fieldBranch, fieldPrefix.
    assert (Hfull : forall full,
               (if String.eqb (cur_prefix (cursor this text cursorPos)) "."
                then js_prop (cur_lastToken (cursor this text cursorPos))
                       (fun lt => JsString.slice (tok_start lt) cursorPos text)
                else Ret (cur_prefix (cursor this text cursorPos)))
               = Ret full ->
               suffix_of full (JsString.slice 0 cursorPos text)).
    { intros full. destruct (String.eqb _ ".").
      - destruct (cur_lastToken _); simpl; [|done].
        intros [= <-]. apply slice_suffix_of.
      - by intros [= <-]. }
    destruct (if String.eqb _ "." then _ else _) as [full|]; simpl; [|done].
    specialize (Hfull full eq_refl).
    assert (Hlast : suffix_of (List.last (JsString.split_dot full) EmptyString)
                      (JsString.slice 0 cursorPos text)).
    { eapply suffix_of_trans; [apply last_split_dot_suffix|exact Hfull]. }
    destruct (_ <? _)%nat.
    + destruct (resolveName _ _) as [r|]; simpl; [|done].
      destruct (_ && _); by intros [= <-].
    + by intros [= <-].
  - unfold valueBranch.
    destruct (resolveName _ _) as [r|]; simpl; [|done].
    destruct (truthy _); [|by intros [= <-]].
    destruct (JsString.starts_with_quote _); simpl.
    + destruct (quoteStripped _ _ _) as [[|]|]; simpl; [| |done].
      * intros [= <-].
        apply (suffix_of_trans _ (cur_prefix (cursor this text cursorPos)));
          [apply (drop_suffix_of 1)|exact Hcur].
      * by intros [= <-].
    + by intros [= <-].
  - unfold comparisonBranch.
    destruct (resolveName _ _) as [r|]; simpl; [|done].
    destruct (truthy _); by intros [= <-].
  - by intros [= <-].
  - by intros [= <-].
Qed.

(** X1: the prefix [getContext] returns is always the end of the text
    before the cursor: the characters a completion replaces are the
    last [prefix.length] ones before the cursor. *)
Theorem getContext_prefix_suffix this text cursorPos ctx :
  getContext this text cursorPos = Ret ctx ->
  suffix_of (ctx_prefix ctx) (JsString.slice 0 cursorPos text)
  /\ (String.length (ctx_prefix ctx) <= cursorPos)%nat.
Proof.
  intros Hctx.
  pose proof (getContext_prefix_end _ _ _ _ Hctx) as Hs.
  split; [exact Hs|].
  apply suffix_of_length in Hs.
  assert (String.length (JsString.slice 0 cursorPos text) <= cursorPos)%nat;
    [|lia].
  unfold JsString.slice. rewrite Nat.sub_0_r. clear.
  revert text. induction cursorPos as [|n IH]; intros [|c s]; simpl; try lia.
  specialize (IH s). lia.
Qed.

Lemma getContext_prefix_suffix_witness :
  suffix_of "i" (JsString.slice 0 19 "id > 1 and author.i") /\ (1 <= 19)%nat.
Proof.
  apply (getContext_prefix_suffix Books.djangoQL "id > 1 and author.i" 19
           (mkContext "i" (Some ScopeField) (Some "auth.user") None
              (Some (mkToken NAME "author.i" 11 19))
              [Some "core.book"; Some "auth.user"])).
  vm_compute. reflexivity.
Defined.

(** ** [resolveName] and [getContext]: what a context holds *)

(** A name that resolves to a model comes with a stack from the current
    model to that model. *)
Lemma resolveName_stack_ends this name r :
  resolveName this name = Ret r ->
  truthy (res_model r) = true ->
  head (res_modelStack r) = Some (currentModel this)
  /\ last (res_modelStack r) = Some (res_model r).
Proof.
  unfold resolveName. destruct (truthy (currentModel this)) eqn:Hcm.
  - intros Hr Ht.
    destruct (resolveParts_stack _ (currentModel this) _ _ _ _ _
                Hr eq_refl eq_refl) as [Hh [Hl|Hl]].
    + rewrite Hl in Ht. discriminate.
    + done.
  - intros [= <-]. simpl. congruence.
Qed.





(** X3: what the context [getContext] returns holds, by scope. The stack
    always starts with the current model. In field, comparison and value
    scope the model of the context is the last element of its stack (the
    element the back-reference test of the suggestions compares with);
    in comparison and value scope that model is set. With no scope or in
    logical scope there is no model and no field, and the stack is the
    current model alone. A field is only ever named in comparison and
    value scope. *)
Theorem getContext_shape this text cursorPos ctx :
  getContext this text cursorPos = Ret ctx ->
  head (ctx_modelStack ctx) = Some (currentModel this)
  /\ match ctx_scope ctx with
     | Some ScopeField =>
         last (ctx_modelStack ctx) = Some (ctx_model ctx)
         /\ ctx_field ctx = None
     | Some ScopeComparison | Some ScopeValue =>
         truthy (ctx_model ctx) = true
         /\ last (ctx_modelStack ctx) = Some (ctx_model ctx)
     | Some ScopeLogical | None =>
         ctx_model ctx = None /\ ctx_field ctx = None
         /\ ctx_modelStack ctx = [currentModel this]
     end.
Proof.
  unfold getContext.
  destruct (dispatch (cursor this text cursorPos)); simpl.
  - by intros [= <-].
  - unfold fieldBranch.
    destruct (fieldPrefix _ _ _) as [prefix|]; simpl; [|done].
    destruct (_ <? _)%nat.
    + destruct (resolveName _ _) as [r|] eqn:Hr; simpl; [|done].
      destruct (truthy (res_model r)) eqn:Ht; simpl; [|by intros [= <-]].
      destruct (negb _); [|by intros [= <-]].
      intros [= <-]. simpl.
      by destruct (resolveName_stack_ends _ _ _ Hr Ht).
    + by intros [= <-].
  - unfold valueBranch.
    destruct (resolveName _ _) as [r|] eqn:Hr; simpl; [|done].
    destruct (truthy (res_model r)) eqn:Ht; [|by intros [= <-]].
    destruct (resolveName_stack_ends _ _ _ Hr Ht).
    destruct (JsString.starts_with_quote _); simpl.
    + destruct (quoteStripped _ _ _); simpl; [|done]. by intros [= <-].
    + by intros [= <-].
  - unfold comparisonBranch.
    destruct (resolveName _ _) as [r|] eqn:Hr; simpl; [|done].
    destruct (truthy (res_model r)) eqn:Ht; [|by intros [= <-]].
    destruct (resolveName_stack_ends _ _ _ Hr Ht).
    by intros [= <-].
  - by intros [= <-].
  - by intros [= <-].
Qed.

Lemma getContext_shape_witness :
  head [Some "core.book"; Some "auth.user"] = Some (currentModel Books.djangoQL)
  /\ last [Some "core.book"; Some "auth.user"] = Some (Some "auth.user")
  /\ (None : option string) = None.
Proof.
  exact (getContext_shape Books.djangoQL "id > 1 and author.i" 19
           (mkContext "i" (Some ScopeField) (Some "auth.user") None
              (Some (mkToken NAME "author.i" 11 19))
              [Some "core.book"; Some "auth.user"])
           ltac:(vm_compute; reflexivity)).
Defined.



(** ** When [getContext] throws *)

Lemma resolveName_total this name :
  schema_closed this -> exists r, resolveName this name = Ret r.
Proof.
  intros [Hcur Hrel]. unfold resolveName.
  destruct (truthy (currentModel this)); [|eauto].
  by apply resolveParts_total.
Qed.

Lemma resolveName_model_defined this name r :
  schema_closed this ->
  resolveName this name = Ret r ->
  truthy (res_model r) = true ->
  is_Some (models this !! js_key (res_model r)).
Proof.
  intros [Hcur Hrel]. unfold resolveName.
  destruct (truthy (currentModel this)) eqn:Hcm.
  - intros Hr Ht.
    by apply (resolveParts_model_defined _ _ _ _ _ _ Hrel Hcur Hr).
  - intros [= <-]. simpl. congruence.
Qed.

(** X5: on a closed schema [getContext] throws in exactly two
    situations. One is a prefix that is a bare dot with no token before
    it (a dot typed first): [lastToken.start] is read off [null]. The
    other is in the value branch, when the name resolves to a relation
    only (no field), the prefix begins with a double quote and the model
    has no field called [null]: [this.models[model][field].type] is read
    off [undefined]. *)
Theorem getContext_throws this text cursorPos :
  schema_closed this ->
  let c := cursor this text cursorPos in
  getContext this text cursorPos = Throw
  <-> (dispatch c = FieldBranch
       /\ cur_prefix c = "."
       /\ cur_lastToken c = None)
      \/ (exists nt r fields,
            dispatch c = ValueBranch nt
            /\ resolveName this (tok_value nt) = Ret r
            /\ truthy (res_model r) = true
            /\ JsString.starts_with_quote (cur_prefix c) = true
            /\ res_field r = None
            /\ models this !! js_key (res_model r) = Some fields
            /\ fields !! "null" = None).
Proof.
  intros Hclosed c. unfold getContext. fold c.
  destruct (dispatch c) as [| |nt|lt| |] eqn:Hd.
  - split; [done|]. intros [[? _]|(? & ? & ? & ? & _)]; done.
  - unfold fieldBranch, fieldPrefix.
    destruct (String.eqb_spec (cur_prefix c) ".") as [Hdot|Hdot].
    + destruct (cur_lastToken c) as [lt|] eqn:Hlt; simpl.
      * split; [|intros [(_ & _ & ?)|(? & ? & ? & ? & _)]; done].
        destruct (_ <? _)%nat; [|done].
        destruct (resolveName_total this
                    (JsString.join_dot
                       (removelast
                          (JsString.split_dot
                             (JsString.slice (tok_start lt) cursorPos text))))
                    Hclosed) as [r ->].
        simpl. by destruct (_ && _).
      * split; [intros _; by left|done].
    + simpl. split; [|intros [(_ & ? & _)|(? & ? & ? & ? & _)]; done].
      destruct (_ <? _)%nat; [|done].
      destruct (resolveName_total this
                  (JsString.join_dot
                     (removelast (JsString.split_dot (cur_prefix c))))
                  Hclosed) as [r ->].
      simpl. by destruct (_ && _).
  - unfold valueBranch.
    destruct (resolveName_total this (tok_value nt) Hclosed) as [r Hr].
    rewrite Hr. simpl.
    destruct (truthy (res_model r)) eqn:Ht.
    + destruct (resolveName_model_defined _ _ _ Hclosed Hr Ht)
        as [fields Hfields].
      destruct (JsString.starts_with_quote (cur_prefix c)) eqn:Hq; simpl.
      * unfold quoteStripped. rewrite Hfields. simpl.
        destruct (res_field r) as [f|] eqn:Hf.
        -- destruct (resolveName_field _ _ _ _ Hr Hf)
             as (fields' & fd & Hfields' & Hfd).
           assert (fields' = fields) as -> by congruence.
           simpl. rewrite Hfd. simpl.
           split; [done|].
           intros [[? _]|(nt' & r' & ? & [= <-] & Hr' & _ & _ & Hf' & _)];
             [done|].
           congruence.
        -- simpl. destruct (fields !! "null") as [fd|] eqn:Hnull; simpl.
           ++ split; [done|].
              intros [[? _]
                     |(nt' & r' & fields' & [= <-] & Hr' & _ & _ & _ & Hm & Hn)];
                [done|].
              assert (r' = r) as -> by congruence.
              congruence.
           ++ split; [|done]. intros _. right.
              exists nt, r, fields. done.
      * split; [done|].
        intros [[? _]|(nt' & r' & ? & [= <-] & Hr' & _ & Hq' & _)]; [done|].
        congruence.
    + split; [done|].
      intros [[? _]|(nt' & r' & ? & [= <-] & Hr' & Ht' & _)]; [done|].
      congruence.
  - unfold comparisonBranch.
    destruct (resolveName_total this (tok_value lt) Hclosed) as [r ->].
    simpl. split; [by destruct (truthy _)|].
    intros [[? _]|(? & ? & ? & ? & _)]; done.
  - split; [done|]. intros [[? _]|(? & ? & ? & ? & _)]; done.
  - split; [done|]. intros [[? _]|(? & ? & ? & ? & _)]; done.
Qed.

Lemma getContext_throws_witness :
  getContext Books.djangoQL "." 1 = Throw
  /\ getContext Books.djangoQL
       ("author = " +:+ String JsString.dquote EmptyString) 10 = Throw.
Proof.
  split.
  - apply (getContext_throws Books.djangoQL "." 1 Books_schema_closed).
    left. repeat split; vm_compute; reflexivity.
  - apply (getContext_throws Books.djangoQL _ 10 Books_schema_closed).
    right.
    exists (mkToken NAME "author" 0 6),
           (mkResolved [Some "core.book"; Some "auth.user"]
              (Some "auth.user") None),
           Books.auth_user.
    split; [vm_compute; reflexivity|]. split; [reflexivity|].
    split; [reflexivity|]. split; [vm_compute; reflexivity|].
    repeat split; reflexivity.
Defined.

(** ** The stack of models is a path of relations *)

Lemma relation_path_snoc ms stack model x :
  relation_path ms stack ->
  last stack = Some model ->
  relation_step ms model x ->
  relation_path ms (stack ++ [x]).
Proof.
  intros Hpath Hlast Hstep i a b Ha Hb.
  destruct (decide (S i < length stack)%nat) as [Hlt|Hge].
  - rewrite lookup_app_l in Ha by lia. rewrite lookup_app_l in Hb by lia.
    by apply (Hpath i).
  - assert (S i = length stack) as Hi.
    { apply lookup_lt_Some in Hb. rewrite length_app in Hb. simpl in Hb. lia. }
    rewrite lookup_app_l in Ha by lia.
    rewrite lookup_app_r in Hb by lia.
    rewrite Hi, Nat.sub_diag in Hb. injection Hb as <-.
    rewrite last_lookup in Hlast.
    assert (Nat.pred (length stack) = i) as Hp by lia.
    rewrite Hp in Hlast. congruence.
Qed.

Lemma resolveParts_path ms parts : forall stack model field r,
  resolveParts ms parts stack model field = Ret r ->
  relation_path ms stack ->
  last stack = Some model ->
  relation_path ms (res_modelStack r)
  /\ (length (res_modelStack r) <= length stack + length parts)%nat.
Proof.
  induction parts as [|part parts IH]; intros stack model field r Hr Hp Hl.
  - simpl in Hr. inversion Hr; subst; simpl. split; [done|lia].
  - simpl in Hr.
    destruct (ms !! js_key model) as [fields|] eqn:Hm; [|discriminate].
    simpl in Hr.
    destruct (fields !! part) as [fd|] eqn:Hf.
    + destruct (bool_decide (ftype fd = TRelation)) eqn:Hrel.
      * apply bool_decide_eq_true in Hrel.
        apply IH in Hr as [Hpath Hlen].
        -- split; [done|]. rewrite length_app in Hlen. simpl in *. lia.
        -- apply (relation_path_snoc _ _ model); [done..|].
           by exists fields, part, fd.
        -- by rewrite last_snoc.
      * apply IH in Hr as [Hpath Hlen]; [|done..].
        split; [done|]. simpl. lia.
    + inversion Hr; subst; simpl. split; [done|lia].
Qed.

(** X6: the stack [resolveName] returns is a path in the schema: each of
    its elements is the target of a relation field of the element
    before it. It has at most one element more than the name has
    segments. *)
Theorem resolveName_stack_path this name r :
  resolveName this name = Ret r ->
  relation_path (models this) (res_modelStack r)
  /\ (length (res_modelStack r)
      <= 1 + length (JsString.split_dot name))%nat.
Proof.
  unfold resolveName. destruct (truthy (currentModel this)).
  - intros Hr. apply (resolveParts_path _ _ _ _ _ _ Hr); [|done].
    intros i a b Ha Hb. by destruct i.
  - intros [= <-]. simpl. split; [|lia]. intros i a b Ha. done.
Qed.

Lemma resolveName_stack_path_witness :
  relation_step (models Books.djangoQL) (Some "auth.user") (Some "auth.group")
  /\ (3 <= 1 + 2)%nat.
Proof.
  destruct (resolveName_stack_path Books.djangoQL "author.groups"
              (mkResolved
                 [Some "core.book"; Some "auth.user"; Some "auth.group"]
                 (Some "auth.group") None) eq_refl) as [Hpath Hlen].
  split; [|exact Hlen].
  exact (Hpath 1%nat (Some "auth.user") (Some "auth.group") eq_refl eq_refl).
Defined.

(** ** [generateSuggestions]: what it leaves in the engine *)

Lemma starts_with_includes (p s : string) :
  JsString.starts_with p s = true -> JsString.includes p s = true.
Proof.
  unfold JsString.starts_with. intros H.
  destruct s; [by destruct p|]. simpl in *. by rewrite H.
Qed.

Lemma searchFilter_includes mode this item :
  searchFilter mode this item = true ->
  JsString.includes (prefix this) (text item) = true.
Proof. destruct mode; simpl; [done|apply starts_with_includes]. Qed.

(** What [generateSuggestions] runs once it is past its guards and
    [getContext] has returned. *)
Lemma generateSuggestions_Normal this this' :
  ready this ->
  generateSuggestions this = Normal this' ->
  exists ctx s,
    contextAtCursor this = Ret ctx
    /\ scopeSuggestions ctx
         (with_prefix (ctx_prefix ctx) (with_highlightCaseSensitive true this))
       = Normal s
    /\ this' = filterAndSelect (filterOf (ctx_scope ctx)) s.
Proof.
  intros Hready Hgen.
  destruct (contextAtCursor this) as [ctx|] eqn:Hctx.
  - rewrite (generateSuggestions_ready _ _ Hready Hctx) in Hgen.
    destruct (scopeSuggestions ctx _) as [s|s] eqn:Hs; simpl in Hgen;
      [|discriminate].
    injection Hgen as <-. eauto.
  - destruct Hready as (Hen & Hcm & Hsel).
    unfold generateSuggestions in Hgen.
    rewrite Hen, Hcm, <- Hsel, Nat.eqb_refl in Hgen. cbn [negb] in Hgen.
    unfold contextAtCursor in Hctx.
    rewrite (getContext_frame (with_highlightCaseSensitive true this) this)
      in Hgen by done.
    rewrite Hctx in Hgen. discriminate.
Qed.

(** X7: when [generateSuggestions] returns from a ready engine, every
    suggestion it leaves contains the prefix it leaves, and the
    selection is the first suggestion if there is exactly one and empty
    otherwise; so the selected index, if any, is that of a
    suggestion. *)
Theorem generateSuggestions_filtered this this' :
  ready this ->
  generateSuggestions this = Normal this' ->
  Forall (fun item => JsString.includes (prefix this') (text item) = true)
    (suggestions this')
  /\ selected this'
     = (if (length (suggestions this') =? 1)%nat then Some 0%nat else None)
  /\ (forall i, selected this' = Some i ->
                (i < length (suggestions this'))%nat).
Proof.
  intros Hready Hgen.
  destruct (generateSuggestions_Normal _ _ Hready Hgen)
    as (ctx & s & _ & _ & ->).
  unfold filterAndSelect. cbn.
  set (l := List.filter _ (suggestions s)).
  split.
  - apply Forall_forall. intros item Hin.
    apply list_elem_of_In, filter_In in Hin as [_ Hf].
    by apply searchFilter_includes in Hf.
  - split; [done|]. intros i.
    destruct (Nat.eqb_spec (length l) 1) as [Hl|Hl]; [|done].
    intros [= <-]. lia.
Qed.

Lemma generateSuggestions_filtered_witness :
  let this := Books.engine Books.schema "core.book" "name st" 7 in
  let this' := state_of (generateSuggestions this) in
  Forall (fun item => JsString.includes (prefix this') (text item) = true)
    (suggestions this')
  /\ selected this'
     = (if (length (suggestions this') =? 1)%nat then Some 0%nat else None)
  /\ (forall i, selected this' = Some i ->
                (i < length (suggestions this'))%nat).
Proof.
  intros this this'.
  apply (generateSuggestions_filtered this this').
  - repeat split; reflexivity.
  - reflexivity.
Defined.

(** [getCurrentFieldOptions] reads the lexer, the schema, the current
    model, the textarea and the URL of the suggestions API only. *)
Lemma getCurrentFieldOptions_frame this1 this2 :
  lexer this1 = lexer this2 ->
  models this1 = models this2 ->
  currentModel this1 = currentModel this2 ->
  textarea this1 = textarea this2 ->
  suggestionsAPIUrl this1 = suggestionsAPIUrl this2 ->
  getCurrentFieldOptions this1 = getCurrentFieldOptions this2.
Proof.
  intros Hl Hm Hc Ht Hu. unfold getCurrentFieldOptions.
  rewrite Ht, (getContext_frame this1 this2) by done.
  destruct (getContext this2 _ _) as [ctx|]; simpl; [|done].
  unfold contextField. rewrite Hm.
  destruct (if truthy (ctx_field ctx) then _ else _) as [field|]; simpl;
    [|done].
  by rewrite Hu.
Qed.

(** In value scope [generateSuggestions] is the ['value'] case followed
    by the default search filter. *)
Lemma generateSuggestions_value this ctx field :
  ready this ->
  contextAtCursor this = Ret ctx ->
  ctx_scope ctx = Some ScopeValue ->
  contextField this ctx = Ret field ->
  generateSuggestions this
  = and_then
      (valueSuggestions field ctx
         (with_prefix (ctx_prefix ctx) (with_highlightCaseSensitive true this)))
      (fun this' => Normal (filterAndSelect FindAnywhere this')).
Proof.
  intros Hready Hctx Hscope Hfield.
  rewrite (generateSuggestions_ready _ _ Hready Hctx).
  unfold scopeSuggestions.
  change (contextField (with_prefix _ _) ctx) with (contextField this ctx).
  by rewrite Hfield, Hscope.
Qed.

(** X8: in value scope, for a field without options whose type is
    neither boolean nor unknown (a number, a string, a date),
    [generateSuggestions] does not replace the suggestions: it leaves
    those the engine held before that contain the new prefix. *)
Theorem generateSuggestions_value_keeps this ctx fd :
  ready this ->
  contextAtCursor this = Ret ctx ->
  ctx_scope ctx = Some ScopeValue ->
  contextField this ctx = Ret (Some fd) ->
  has_options fd = false ->
  ftype fd <> TBool ->
  ftype fd <> TUnknown ->
  exists this',
    generateSuggestions this = Normal this'
    /\ prefix this' = ctx_prefix ctx
    /\ suggestions this'
       = List.filter
           (fun item => JsString.includes (ctx_prefix ctx) (text item))
           (suggestions this).
Proof.
  intros Hready Hctx Hscope Hfield Hopt Hbool Hunknown.
  rewrite (generateSuggestions_value _ _ _ Hready Hctx Hscope Hfield).
  unfold valueSuggestions. rewrite Hopt.
  rewrite bool_decide_eq_false_2 by done.
  rewrite bool_decide_eq_false_2 by done.
  simpl. eexists. repeat split; reflexivity.
Qed.

Lemma generateSuggestions_value_keeps_witness :
  let shown :=
    state_of (generateSuggestions
                (Books.engine Books.schema "core.book" "id >" 4)) in
  let this := with_textarea (mkTextarea "id > " 5 5) shown in
  map text (suggestions shown) = [">"; ">="]
  /\ offered (generateSuggestions this) = Some [">"; ">="].
Proof.
  intros shown this. split; [vm_compute; reflexivity|].
  destruct (generateSuggestions_value_keeps this
              (mkContext EmptyString (Some ScopeValue) (Some "core.book")
                 (Some "id") None [Some "core.book"])
              (Books.scalar TInt))
    as (this' & Hgen & _ & Hkept).
  - repeat split; reflexivity.
  - vm_compute. reflexivity.
  - reflexivity.
  - reflexivity.
  - reflexivity.
  - discriminate.
  - discriminate.
  - rewrite Hgen. simpl. rewrite Hkept. vm_compute. reflexivity.
Defined.

(** X9: in value scope, a name that resolves to a relation only is
    offered [None]; a boolean field without options is offered [True],
    [False] and, only when it is nullable, [None]; each with a space
    pasted after it, and each only if it contains the prefix. *)
Theorem generateSuggestions_value_literals this ctx field :
  ready this ->
  contextAtCursor this = Ret ctx ->
  ctx_scope ctx = Some ScopeValue ->
  contextField this ctx = Ret field ->
  match field with
  | None => True
  | Some fd => has_options fd = false /\ ftype fd = TBool
  end ->
  exists this',
    generateSuggestions this = Normal this'
    /\ suggestions this'
       = List.filter
           (fun item => JsString.includes (ctx_prefix ctx) (text item))
           (match field with
            | None => [suggestion "None" EmptyString " " None]
            | Some fd =>
                [suggestion "True" EmptyString " " None;
                 suggestion "False" EmptyString " " None]
                ++ (if nullable fd
                    then [suggestion "None" EmptyString " " None] else [])
            end).
Proof.
  intros Hready Hctx Hscope Hfield Hkind.
  rewrite (generateSuggestions_value _ _ _ Hready Hctx Hscope Hfield).
  unfold valueSuggestions. destruct field as [fd|].
  - destruct Hkind as [-> Hbool].
    rewrite bool_decide_eq_true_2 by done.
    simpl. eexists. split; reflexivity.
  - simpl. eexists. split; reflexivity.
Qed.

Lemma generateSuggestions_value_literals_witness :
  offered (generateSuggestions
             (Books.engine Books.schema "core.book" "is_published = T" 16))
  = Some ["True"].
Proof.
  destruct (generateSuggestions_value_literals
              (Books.engine Books.schema "core.book" "is_published = T" 16)
              (mkContext "T" (Some ScopeValue) (Some "core.book")
                 (Some "is_published") (Some (mkToken NAME "T" 15 16))
                 [Some "core.book"])
              (Some (Books.scalar TBool)))
    as (this' & Hgen & Hs).
  - repeat split; reflexivity.
  - vm_compute. reflexivity.
  - reflexivity.
  - reflexivity.
  - split; reflexivity.
  - rewrite Hgen. simpl. rewrite Hs. vm_compute. reflexivity.
Defined.




Lemma filter_map_text (P : string -> bool) (g : string -> Suggestion)
    (l : list string) :
  (forall x, text (g x) = x) ->
  List.filter (fun item => P (text item)) (map g l)
  = map g (List.filter P l).
Proof.
  intros Hg. induction l as [|x l IH]; simpl; [done|].
  rewrite Hg. destruct (P x); simpl; by rewrite IH.
Qed.




Lemma getCurrentFieldOptions_remote this ctx fd :
  contextAtCursor this = Ret ctx ->
  ctx_scope ctx = Some ScopeValue ->
  contextField this ctx = Ret (Some fd) ->
  options fd = RemoteOptions ->
  truthy (suggestionsAPIUrl this) = true ->
  getCurrentFieldOptions this
  = Ret (Some (mkFieldOptions
                 (Some (js_key (ctx_model ctx) +:+ "." +:+ js_key (ctx_field ctx)
                        +:+ "|" +:+ ctx_prefix ctx))
                 ctx None)).
Proof.
  intros Hctx Hscope Hfield Hopt Hurl. unfold getCurrentFieldOptions.
  unfold contextAtCursor in Hctx. rewrite Hctx. simpl.
  rewrite Hfield. simpl. by rewrite Hscope, Hopt, Hurl.
Qed.

(** [populateFieldOptions] for a field whose values come from the
    suggestions API: the cached values are shown, and a load is
    scheduled when the entry is not being loaded and either has no page
    yet or has more pages and more were asked for. *)
Lemma populateFieldOptions_remote loadMore this key ctx :
  getCurrentFieldOptions this
  = Ret (Some (mkFieldOptions (Some key) ctx None)) ->
  let cached :=
    default empty_entry (LRUCache.peek key (suggestionsCache this)) in
  exists this',
    populateFieldOptions loadMore this = Normal this'
    /\ suggestions this'
       = map (fun f => suggestion f (String JsString.dquote EmptyString)
                         (String JsString.dquote EmptyString) None)
           (default [] (items cached))
    /\ debouncedLoad this'
       = (if negb (entry_loading cached)
             && (negb (page_loaded cached) || (loadMore && has_next cached))
          then Some loadMore else debouncedLoad this)
    /\ prefix this' = prefix this
    /\ request this' = request this
    /\ loading this' = loading this.
Proof.
  intros Hfo cached. unfold populateFieldOptions. rewrite Hfo. simpl.
  pose proof (cacheGet_entry key (with_suggestions [] this)) as He.
  destruct (cacheGet key (with_suggestions [] this)) as [c this1] eqn:Hget.
  simpl in He. fold cached in He. subst c.
  assert (Hthis1 : this1 = with_suggestionsCache
                             (LRUCache.get key (suggestionsCache this)).2
                             (with_suggestions [] this)).
  { unfold cacheGet in Hget. simpl in Hget.
    destruct (LRUCache.get key (suggestionsCache this)). by inversion Hget. }
  subst this1.
  destruct (negb (entry_loading cached) && _);
    destruct (default [] (items cached)); simpl;
    eexists; (split; [reflexivity|]); repeat split.
Qed.

(** X11: in value scope, for a field whose values come from the
    suggestions API, [generateSuggestions] starts no request itself.
    It offers the values cached under [model.field|prefix] that
    contain the prefix with the same case, and schedules the debounced
    load of the first page exactly when the cache entry is not being
    loaded and holds no page. *)
Theorem generateSuggestions_remote_options this ctx fd :
  ready this ->
  contextAtCursor this = Ret ctx ->
  ctx_scope ctx = Some ScopeValue ->
  contextField this ctx = Ret (Some fd) ->
  options fd = RemoteOptions ->
  truthy (suggestionsAPIUrl this) = true ->
  let key := js_key (ctx_model ctx) +:+ "." +:+ js_key (ctx_field ctx)
             +:+ "|" +:+ ctx_prefix ctx in
  let cached :=
    default empty_entry (LRUCache.peek key (suggestionsCache this)) in
  exists this',
    generateSuggestions this = Normal this'
    /\ suggestions this'
       = map (fun f => suggestion f (String JsString.dquote EmptyString)
                         (String JsString.dquote EmptyString) None)
           (List.filter (JsString.includes (ctx_prefix ctx))
              (default [] (items cached)))
    /\ debouncedLoad this'
       = (if negb (entry_loading cached) && negb (page_loaded cached)
          then Some false else debouncedLoad this)
    /\ request this' = request this
    /\ loading this' = loading this.
Proof.
  intros Hready Hctx Hscope Hfield Hopt Hurl key cached.
  rewrite (generateSuggestions_value _ _ _ Hready Hctx Hscope Hfield).
  unfold valueSuggestions, has_options. rewrite Hopt.
  set (s0 := with_prefix _ _).
  assert (Hfo : getCurrentFieldOptions s0
                = Ret (Some (mkFieldOptions (Some key) ctx None))).
  { rewrite (getCurrentFieldOptions_frame _ this) by done.
    by apply (getCurrentFieldOptions_remote _ _ fd). }
  destruct (populateFieldOptions_remote false s0 key ctx Hfo)
    as (this1 & -> & Hs & Hd & Hp & Hr & Hl).
  simpl. eexists. split; [reflexivity|].
  repeat split; simpl.
  - unfold searchFilter. rewrite Hs, Hp. simpl.
    by rewrite filter_map_text.
  - rewrite Hd. simpl. by rewrite orb_false_r.
  - by rewrite Hr.
  - by rewrite Hl.
Qed.

Lemma generateSuggestions_remote_options_witness :
  let this := Library.engine "title = W" 9 in
  let cached :=
    with_suggestionsCache
      (LRUCache.set "lib.book.title|W"
         (mkEntry (Some ["War and Peace"; "The war"; "Waverley"])
            (Some 1%Z) false false)
         (suggestionsCache this)) this in
  (offered (generateSuggestions this) = Some []
   /\ debouncedLoad (state_of (generateSuggestions this)) = Some false)
  /\ (offered (generateSuggestions cached)
      = Some ["War and Peace"; "Waverley"]
      /\ debouncedLoad (state_of (generateSuggestions cached)) = None).
Proof.
  intros this cached.
  pose (ctx := mkContext "W" (Some ScopeValue) (Some "lib.book")
                 (Some "title") (Some (mkToken NAME "W" 8 9))
                 [Some "lib.book"]).
  split.
  - destruct (generateSuggestions_remote_options this ctx Library.title)
      as (this' & Hgen & Hs & Hd & _).
    + repeat split; reflexivity.
    + vm_compute. reflexivity.
    + reflexivity.
    + reflexivity.
    + reflexivity.
    + reflexivity.
    + rewrite Hgen. simpl. rewrite Hs, Hd. split; reflexivity.
  - destruct (generateSuggestions_remote_options cached ctx Library.title)
      as (this' & Hgen & Hs & Hd & _).
    + repeat split; reflexivity.
    + vm_compute. reflexivity.
    + reflexivity.
    + reflexivity.
    + reflexivity.
    + reflexivity.
    + rewrite Hgen. simpl. rewrite Hs, Hd. split; reflexivity.
Defined.

(** [populateFieldOptions] changes nothing of what [getContext] and
    [getCurrentFieldOptions] read. *)
Lemma populateFieldOptions_input loadMore this :
  getCurrentFieldOptions (state_of (populateFieldOptions loadMore this))
  = getCurrentFieldOptions this.
Proof.
  apply getCurrentFieldOptions_frame;
    unfold populateFieldOptions, evaluating;
    (destruct (getCurrentFieldOptions this) as [[fo|]|]; simpl; [|done..]);
    (destruct (fo_options fo); simpl;
       [by destruct (valuesCaseSensitive this)|]);
    (destruct (fo_cacheKey fo); simpl; [|done]);
    unfold cacheGet; destruct (LRUCache.get _ _); simpl;
    destruct (negb _ && _); by destruct (default [] _).
Qed.

Lemma populateFieldOptions_capacity loadMore this :
  LRUCache.capacity
    (suggestionsCache (state_of (populateFieldOptions loadMore this)))
  = LRUCache.capacity (suggestionsCache this).
Proof.
  unfold populateFieldOptions, evaluating.
  destruct (getCurrentFieldOptions this) as [[fo|]|]; simpl; [|done..].
  destruct (fo_options fo); simpl; [by destruct (valuesCaseSensitive this)|].
  destruct (fo_cacheKey fo) as [key|]; simpl; [|done].
  pose proof (cacheGet_cache key (with_suggestions [] this)) as Hc.
  destruct (cacheGet key (with_suggestions [] this)) as [cached this'].
  simpl in Hc.
  assert (LRUCache.capacity (suggestionsCache this')
          = LRUCache.capacity (suggestionsCache this))
    by (rewrite Hc; apply lru_capacity_get).
  destruct (negb _ && _); by destruct (default [] _).
Qed.

(** When [loadFieldOptions] decides to fetch, it marks the cache entry
    as loading, hands the request to [getJson] and redraws. *)
Lemma loadFieldOptions_requests loadMore this key ctx :
  getCurrentFieldOptions this
  = Ret (Some (mkFieldOptions (Some key) ctx None)) ->
  let cached :=
    default empty_entry (LRUCache.peek key (suggestionsCache this)) in
  (loadMore && has_next cached) || negb (page_loaded cached) = true ->
  loadFieldOptions loadMore this
  = populateFieldOptions false
        (getJson
           {| req_field := js_key (ctx_model ctx) +:+ "."
                           +:+ js_key (ctx_field ctx);
              req_search := ctx_prefix ctx;
              req_page :=
                if loadMore && has_next cached
                then Some (if page_loaded cached
                           then (default 0 (page cached) + 1)%Z else 1%Z)
                else None;
              req_cacheKey := key |}
           (cacheSet key
              {| items := items cached; page := page cached;
                 has_next := has_next cached; entry_loading := true |}
              (cacheGet key this).2)).
Proof.
  intros Hfo cached Hfetch. unfold loadFieldOptions. rewrite Hfo. simpl.
  pose proof (cacheGet_entry key this) as He.
  destruct (cacheGet key this) as [c this1]. simpl in He. fold cached in He.
  subst c. simpl.
  destruct (loadMore && has_next cached); [done|].
  simpl in Hfetch. apply negb_true_iff in Hfetch. by rewrite Hfetch.
Qed.

(** X12: a fetch that fails is not tried again. When
    [loadFieldOptions] fetches the values of the field under the cursor
    and the request fails, the cache entry of the key stays marked as
    loading, so that [populateFieldOptions], whatever its argument,
    schedules no further load for this key. *)
Theorem failed_request_not_retried this key ctx loadMore :
  getCurrentFieldOptions this
  = Ret (Some (mkFieldOptions (Some key) ctx None)) ->
  (1 <= LRUCache.capacity (suggestionsCache this))%nat ->
  let cached :=
    default empty_entry (LRUCache.peek key (suggestionsCache this)) in
  (loadMore && has_next cached) || negb (page_loaded cached) = true ->
  let started := state_of (loadFieldOptions loadMore this) in
  let failed := requestFailed started in
  (exists r, request started = Some r /\ req_cacheKey r = key)
  /\ loading started = true
  /\ loading failed = false
  /\ LRUCache.peek key (suggestionsCache failed)
     = Some {| items := items cached; page := page cached;
               has_next := has_next cached; entry_loading := true |}
  /\ forall more, exists this',
       populateFieldOptions more failed = Normal this'
       /\ debouncedLoad this' = debouncedLoad this.
Proof.
  intros Hfo Hcap cached Hfetch started failed.
  pose proof (loadFieldOptions_requests loadMore this key ctx Hfo Hfetch)
    as Hload.
  fold cached in Hload. subst failed started. rewrite Hload.
  set (r := mkRequest _ _ _ _) in *.
  set (entry := mkEntry _ _ _ true) in *.
  set (s2 := getJson r _).
  assert (Hfo2 : getCurrentFieldOptions s2
                 = Ret (Some (mkFieldOptions (Some key) ctx None))).
  { rewrite <- Hfo. apply getCurrentFieldOptions_frame;
      subst s2; unfold getJson, cacheSet, cacheGet;
      by destruct (LRUCache.get key (suggestionsCache this)). }
  assert (Hpeek2 : LRUCache.peek key (suggestionsCache s2) = Some entry).
  { subst s2. simpl. apply lru_peek_set.
    rewrite cacheGet_cache, lru_capacity_get. exact Hcap. }
  assert (Hd2 : debouncedLoad s2 = debouncedLoad this).
  { subst s2. unfold getJson, cacheSet, cacheGet.
    by destruct (LRUCache.get key (suggestionsCache this)). }
  assert (Hr2 : request s2 = Some r) by done.
  assert (Hl2 : loading s2 = true) by done.
  clearbody s2.
  destruct (populateFieldOptions_remote false s2 key ctx Hfo2)
    as (s3 & Hpop & _ & Hd3 & _ & Hr3 & Hl3).
  rewrite Hpeek2 in Hd3. simpl in Hd3.
  pose proof (populateFieldOptions_peek false s2 key) as Hpeek3.
  pose proof (populateFieldOptions_input false s2) as Hfo3.
  rewrite Hpop in *. simpl in Hpeek3, Hfo3. simpl.
  split; [exists r; by rewrite Hr3, Hr2|].
  split; [by rewrite Hl3, Hl2|].
  split; [done|].
  split; [by rewrite Hpeek3|].
  intros more.
  assert (Hfo4 : getCurrentFieldOptions (requestFailed s3)
                 = Ret (Some (mkFieldOptions (Some key) ctx None))).
  { rewrite <- Hfo2, <- Hfo3. by apply getCurrentFieldOptions_frame. }
  destruct (populateFieldOptions_remote more (requestFailed s3) key ctx Hfo4)
    as (s4 & Hpop4 & _ & Hd4 & _).
  exists s4. split; [done|].
  rewrite Hd4. simpl. rewrite Hpeek3, Hpeek2. simpl. congruence.
Qed.

Lemma failed_request_not_retried_witness :
  let this := Library.engine "title = W" 9 in
  let failed := requestFailed (state_of (loadFieldOptions false this)) in
  LRUCache.peek "lib.book.title|W" (suggestionsCache failed)
  = Some (mkEntry None None false true)
  /\ debouncedLoad (state_of (populateFieldOptions false failed)) = None
  /\ debouncedLoad (state_of (generateSuggestions failed)) = None.
Proof.
  intros this failed.
  destruct (failed_request_not_retried this "lib.book.title|W"
              (mkContext "W" (Some ScopeValue) (Some "lib.book")
                 (Some "title") (Some (mkToken NAME "W" 8 9))
                 [Some "lib.book"]) false)
    as (_ & _ & _ & Hpeek & Hpop).
  - vm_compute. reflexivity.
  - simpl. lia.
  - reflexivity.
  - split; [exact Hpeek|]. split.
    + destruct (Hpop false) as (this' & Heq & Hd).
      fold failed in Heq. by rewrite Heq.
    + vm_compute. reflexivity.
Defined.

Lemma loadSuccess_capacity key data this :
  LRUCache.capacity (suggestionsCache (state_of (loadSuccess key data this)))
  = LRUCache.capacity (suggestionsCache this).
Proof.
  unfold loadSuccess.
  pose proof (cacheGet_cache key this) as Hc.
  destruct (cacheGet key this) as [cache this']. simpl in Hc.
  destruct (negb _); simpl.
  - rewrite Hc. apply lru_capacity_get.
  - rewrite populateFieldOptions_capacity. simpl.
    rewrite Hc. apply lru_capacity_get.
Qed.

(** The page that follows the cached one is appended to the entry. *)
Lemma loadSuccess_applied key data this :
  let cached :=
    default empty_entry (LRUCache.peek key (suggestionsCache this)) in
  (1 <= LRUCache.capacity (suggestionsCache this))%nat ->
  data_page data = (default 0 (page cached) + 1)%Z ->
  LRUCache.peek key (suggestionsCache (state_of (loadSuccess key data this)))
  = Some {| items := Some (default [] (items cached) ++ data_items data);
            page := Some (data_page data);
            has_next := data_has_next data;
            entry_loading := false |}.
Proof.
  intros cached Hcap Hpage. unfold loadSuccess.
  pose proof (cacheGet_entry key this) as He.
  pose proof (cacheGet_cache key this) as Hc.
  destruct (cacheGet key this) as [cache this']. simpl in He, Hc.
  fold cached in He. subst cache.
  rewrite (proj2 (Z.eqb_eq _ _)) by lia. cbn [negb].
  rewrite populateFieldOptions_peek. simpl.
  apply lru_peek_set. rewrite Hc, lru_capacity_get. exact Hcap.
Qed.

(** X13: pages that arrive in order accumulate. When the suggestions API
    delivers pages numbered consecutively from the one after the cached
    page, the cache entry ends up with the cached items followed by the
    items of all the pages in order, and with the page number and the
    [has_next] flag of the last page. *)
Theorem pages_accumulate key pages last_page : forall this,
  let cached :=
    default empty_entry (LRUCache.peek key (suggestionsCache this)) in
  (1 <= LRUCache.capacity (suggestionsCache this))%nat ->
  (forall i d, pages !! i = Some d ->
     data_page d = (default 0 (page cached) + 1 + Z.of_nat i)%Z) ->
  last pages = Some last_page ->
  LRUCache.peek key (suggestionsCache (deliver key pages this))
  = Some {| items := Some (default [] (items cached)
                           ++ concat (map data_items pages));
            page := Some (data_page last_page);
            has_next := data_has_next last_page;
            entry_loading := false |}.
Proof.
  induction pages as [|d rest IH]; intros this cached Hcap Hnum Hlast;
    [done|].
  pose proof (loadSuccess_applied key d this Hcap) as Hfirst.
  fold cached in Hfirst.
  rewrite (Hnum 0%nat d eq_refl) in Hfirst at 1.
  specialize (Hfirst ltac:(lia)).
  destruct rest as [|d' rest'].
  - simpl in *. injection Hlast as <-. by rewrite app_nil_r.
  - change (deliver key (d :: d' :: rest') this)
      with (deliver key (d' :: rest') (state_of (loadSuccess key d this))).
    rewrite IH.
    + rewrite Hfirst. simpl. by rewrite <- app_assoc.
    + by rewrite loadSuccess_capacity.
    + intros i e Hi. rewrite Hfirst. simpl.
      rewrite (Hnum (S i) e Hi), (Hnum 0%nat d eq_refl). lia.
    + exact Hlast.
Qed.

Lemma pages_accumulate_witness :
  LRUCache.peek "lib.book.title|W"
    (suggestionsCache
       (deliver "lib.book.title|W"
          [mkPage ["War and Peace"; "Waverley"] 1 true;
           mkPage ["Walden"] 2 false]
          (Library.engine "title = W" 9)))
  = Some (mkEntry (Some ["War and Peace"; "Waverley"; "Walden"])
            (Some 2%Z) false false).
Proof.
  apply (pages_accumulate "lib.book.title|W"
           [mkPage ["War and Peace"; "Waverley"] 1 true;
            mkPage ["Walden"] 2 false]
           (mkPage ["Walden"] 2 false) (Library.engine "title = W" 9)).
  - simpl. lia.
  - intros [|[|i]] d [= <-]; reflexivity.
  - reflexivity.
Defined.

(** ** [selectCompletion] and [onKeydown] *)

Lemma substring_0_length (n : nat) (s : string) :
  String.length (substring 0 n s) = Nat.min n (String.length s).
Proof.
  revert s. induction n as [|n IH]; intros [|c s]; simpl; try done.
  by rewrite IH.
Qed.



Lemma substring_0_drop (n : nat) (s : string) :
  s = substring 0 n s +:+ JsString.drop n s.
Proof.
  revert s. induction n as [|n IH]; intros [|c s]; simpl;
    rewrite ?append_nil_l, ?append_cons; try done.
  by rewrite <- IH.
Qed.












(** X15: a selected index that is not the index of a suggestion makes
    [Tab] and [Enter] throw: [selectCompletion] reads the snippets of
    a suggestion that is not there. The engine is left as it was and
    the default action of the key is not prevented. *)
Theorem onKeydown_stale_selection this index ctx keyCode :
  contextAtCursor this = Ret ctx ->
  selected this = Some index ->
  suggestions this !! index = None ->
  keyCode = 9%nat \/ keyCode = 13%nat ->
  selectCompletion index this = Abrupt this
  /\ onKeydown keyCode this = (Abrupt this, NoEffect).
Proof.
  intros Hctx Hsel Hnone Hkey. unfold contextAtCursor in Hctx.
  assert (Hthrow : selectCompletion index this = Abrupt this).
  { unfold selectCompletion. rewrite Hctx. simpl. by rewrite Hnone. }
  split; [exact Hthrow|].
  destruct Hkey as [-> | ->]; unfold onKeydown; rewrite Hsel;
    unfold keySelect; by rewrite Hthrow.
Qed.

Lemma onKeydown_stale_selection_witness :
  let this := with_selected (Some 3%nat) Books.djangoQL in
  selectCompletion 3 this = Abrupt this
  /\ onKeydown 9 this = (Abrupt this, NoEffect).
Proof.
  intros this.
  apply (onKeydown_stale_selection this 3
           (mkContext EmptyString (Some ScopeField) (Some "core.book") None
              None [Some "core.book"])).
  - vm_compute. reflexivity.
  - reflexivity.
  - reflexivity.
  - by left.
Defined.

(** The arrow keys, when the completion box is enabled and shows
    suggestions. *)
Lemma onKeydown_arrows this :
  completionEnabled this = true ->
  suggestions this <> [] ->
  (onKeydown 40 this).1
  = Normal (with_selected
              match selected this with
              | None => Some 0%nat
              | Some n =>
                  if (n <? length (suggestions this) - 1)%nat
                  then Some (S n) else None
              end this)
  /\ (onKeydown 38 this).1
     = Normal (with_selected
                 match selected this with
                 | None => Some (length (suggestions this) - 1)%nat
                 | Some 0%nat => None
                 | Some (S n) => Some n
                 end this).
Proof.
  intros Hen Hne.
  assert (Hlen : (length (suggestions this) =? 0)%nat = false)
    by (destruct (suggestions this); [done|reflexivity]).
  unfold onKeydown, renderCompletion. rewrite Hlen. cbn [negb fst].
  split; cbn [completionEnabled suggestions with_selected];
    by rewrite Hen, Hlen.
Qed.

(** X16: with the completion box enabled and showing suggestions, the
    arrow keys move the selection among the suggestions and the state
    without selection, and undo each other: a valid selection stays
    valid, [Up] after [Down] and [Down] after [Up] give back the
    selection there was. *)
Theorem arrow_keys_inverse this :
  completionEnabled this = true ->
  suggestions this <> [] ->
  valid_selection this ->
  let down := state_of (onKeydown 40 this).1 in
  let up := state_of (onKeydown 38 this).1 in
  valid_selection down
  /\ valid_selection up
  /\ selected (state_of (onKeydown 38 down).1) = selected this
  /\ selected (state_of (onKeydown 40 up).1) = selected this.
Proof.
  intros Hen Hne Hvalid down up.
  assert (Hlen : (0 < length (suggestions this))%nat)
    by (destruct (suggestions this); [done|simpl; lia]).
  destruct (onKeydown_arrows this Hen Hne) as [Hdown Hup].
  assert (Hd : down = with_selected
              match selected this with
              | None => Some 0%nat
              | Some n =>
                  if (n <? length (suggestions this) - 1)%nat
                  then Some (S n) else None
              end this) by (subst down; by rewrite Hdown).
  assert (Hu : up = with_selected
                 match selected this with
                 | None => Some (length (suggestions this) - 1)%nat
                 | Some 0%nat => None
                 | Some (S n) => Some n
                 end this) by (subst up; by rewrite Hup).
  clearbody down up. clear Hdown Hup.
  destruct (onKeydown_arrows down) as [_ ->]; [by subst..|].
  destruct (onKeydown_arrows up) as [-> _]; [by subst..|].
  subst down up. unfold valid_selection in *. simpl.
  destruct (selected this) as [[|n]|]; simpl;
    repeat match goal with
           | |- context [(?a <? ?b)%nat] =>
               destruct (Nat.ltb_spec a b); simpl
           end;
    repeat split; try lia; try done; f_equal; lia.
Qed.

Lemma arrow_keys_inverse_witness :
  let this :=
    state_of (generateSuggestions
                (Books.engine Books.schema "core.book" "id " 3)) in
  selected this = None
  /\ selected (state_of (onKeydown 40 this).1) = Some 0%nat
  /\ selected (state_of (onKeydown 38 this).1) = Some 7%nat
  /\ selected (state_of (onKeydown 38 (state_of (onKeydown 40 this).1)).1)
     = None.
Proof.
  intros this.
  destruct (arrow_keys_inverse this) as (_ & _ & Hup & _).
  - reflexivity.
  - vm_compute. discriminate.
  - vm_compute. exact I.
  - split; [reflexivity|]. split; [vm_compute; reflexivity|].
    split; [vm_compute; reflexivity|]. exact Hup.
Defined.

(** ** The lexer: where the tokens lie *)

Lemma whitespace_run_le (s : string) :
  (whitespace_run s <= String.length s)%nat.
Proof.
  induction s as [|c s IH]; simpl; [lia|].
  destruct (is_whitespace c); lia.
Qed.

Lemma digit_run_le (s : string) :
  (Lexer.digit_run s <= String.length s)%nat.
Proof.
  induction s as [|c s IH]; simpl; [lia|].
  destruct (Lexer.is_digit c); lia.
Qed.

Lemma prefix_length (p s : string) :
  String.prefix p s = true -> (String.length p <= String.length s)%nat.
Proof.
  revert s. induction p as [|c p IH]; intros [|d s]; simpl; try done; try lia.
  destruct (ascii_dec c d); [|done]. intros H. apply IH in H. lia.
Qed.

Lemma drop_length (n : nat) (s : string) :
  String.length (JsString.drop n s) = (String.length s - n)%nat.
Proof. revert s. induction n as [|n IH]; intros [|c s]; simpl; auto. Qed.

Lemma name_rest_le (s : string) : forall afterDot cur good,
  (good <= cur)%nat ->
  (Lexer.name_rest s afterDot cur good <= cur + String.length s)%nat.
Proof.
  induction s as [|c s IH]; intros afterDot cur good Hle; simpl; [lia|].
  destruct afterDot.
  - destruct (Lexer.is_name_start c); [|lia].
    specialize (IH false (S cur) (S cur)). lia.
  - destruct (Lexer.is_name_char c).
    + specialize (IH false (S cur) (S cur)). lia.
    + destruct (Ascii.eqb c "."); [|lia].
      specialize (IH true (S cur) good). lia.
Qed.

Lemma string_rest_bounds (fuel : nat) : forall s cur m,
  (String.length s < fuel)%nat ->
  Lexer.string_rest s cur = Some m ->
  (cur < m <= cur + String.length s)%nat.
Proof.
  induction fuel as [|fuel IH]; intros s cur m Hfuel; [lia|].
  destruct s as [|c s]; simpl; [done|].
  destruct (Ascii.eqb c JsString.dquote); [intros [= <-]; lia|].
  destruct (Ascii.eqb c Lexer.backslash).
  - destruct s as [|e s]; [done|].
    destruct (Lexer.is_escape e).
    + intros H. apply IH in H; simpl in *; lia.
    + destruct (Ascii.eqb e "u"); [|done].
      destruct s as [|h1 [|h2 [|h3 [|h4 s]]]]; try done.
      destruct (_ && _ && _ && _); [|done].
      intros H. apply IH in H; simpl in *; lia.
  - destruct (_ || _); [done|].
    intros H. apply IH in H; simpl in *; lia.
Qed.

Lemma intRegex_le (s : string) (n : nat) :
  Lexer.intRegex s = Some n -> (n <= String.length s)%nat.
Proof.
  unfold Lexer.intRegex.
  assert (Hdigits : forall sign rest,
            (sign + String.length rest <= String.length s)%nat ->
            match rest with
            | String c rest' =>
                if Ascii.eqb c "0" then Some (sign + 1)%nat
                else if Lexer.is_digit c
                then Some (sign + 1 + Lexer.digit_run rest')%nat
                else None
            | EmptyString => None
            end = Some n -> (n <= String.length s)%nat).
  { intros sign [|c rest] Hle; [done|]. simpl in Hle.
    destruct (Ascii.eqb c "0"); [intros [= <-]; lia|].
    destruct (Lexer.is_digit c); [|done].
    intros [= <-]. pose proof (digit_run_le rest). lia. }
  destruct s as [|c rest]; [done|].
  destruct (Ascii.eqb c "-");
    [apply (Hdigits 1%nat rest)|apply (Hdigits 0%nat (String c rest))];
    simpl; lia.
Qed.

Lemma fractionPart_le (s : string) (n : nat) :
  Lexer.fractionPart s = Some n -> (n <= String.length s)%nat.
Proof.
  destruct s as [|c rest]; simpl; [done|].
  destruct (Ascii.eqb c "."); [|done].
  pose proof (digit_run_le rest).
  destruct (Lexer.digit_run rest); [done|]. intros [= <-]. lia.
Qed.

Lemma exponentPart_le (s : string) (n : nat) :
  Lexer.exponentPart s = Some n -> (n <= String.length s)%nat.
Proof.
  destruct s as [|c rest]; simpl; [done|].
  destruct (_ || _); [|done].
  destruct rest as [|c' rest']; [done|].
  destruct (_ || _).
  - pose proof (digit_run_le rest').
    destruct (Lexer.digit_run rest'); [done|]. intros [= <-]. simpl. lia.
  - pose proof (digit_run_le (String c' rest')).
    destruct (Lexer.digit_run (String c' rest')); [done|].
    intros [= <-]. simpl in *. lia.
Qed.

Lemma floatRegex_le (s : string) (n : nat) :
  Lexer.floatRegex s = Some n -> (n <= String.length s)%nat.
Proof.
  unfold Lexer.floatRegex.
  destruct (Lexer.intRegex s) as [i|] eqn:Hi; [|done].
  apply intRegex_le in Hi.
  destruct (Lexer.fractionPart _) as [f|] eqn:Hf.
  - apply fractionPart_le in Hf. rewrite drop_length in Hf.
    destruct (Lexer.exponentPart _) as [e|] eqn:He.
    + apply exponentPart_le in He. rewrite !drop_length in He.
      intros [= <-]. lia.
    + intros [= <-]. lia.
  - destruct (Lexer.exponentPart _) as [e|] eqn:He; [|done].
    apply exponentPart_le in He. rewrite drop_length in He.
    intros [= <-]. lia.
Qed.

Lemma literal_le (lit s : string) (n : nat) :
  Lexer.literal lit s = Some n -> (n <= String.length s)%nat.
Proof.
  unfold Lexer.literal. destruct (String.prefix lit s) eqn:Hp; [|done].
  intros [= <-]. by apply prefix_length.
Qed.

Lemma reserved_le (word s : string) (n : nat) :
  Lexer.reserved word s = Some n -> (n <= String.length s)%nat.
Proof.
  unfold Lexer.reserved. destruct (String.prefix word s) eqn:Hp; [|done].
  apply prefix_length in Hp.
  destruct (JsString.drop _ s) as [|c rest]; [by intros [= <-]|].
  destruct (Lexer.is_name_char c); [done|]. by intros [= <-].
Qed.

Lemma nameRegex_le (s : string) (n : nat) :
  Lexer.nameRegex s = Some n -> (n <= String.length s)%nat.
Proof.
  destruct s as [|c rest]; simpl; [done|].
  destruct (Lexer.is_name_start c); [|done]. intros [= <-].
  pose proof (name_rest_le rest false 1 1). lia.
Qed.

Lemma stringRegex_bounds (s : string) (n : nat) :
  Lexer.stringRegex s = Some n -> (2 <= n <= String.length s)%nat.
Proof.
  destruct s as [|c rest]; simpl; [done|].
  destruct (Ascii.eqb c JsString.dquote); [|done].
  intros H. apply (string_rest_bounds (S (String.length rest))) in H; lia.
Qed.

Lemma whitespaceRegex_le (s : string) (n : nat) :
  Lexer.whitespaceRegex s = Some n -> (n <= String.length s)%nat.
Proof.
  unfold Lexer.whitespaceRegex. pose proof (whitespace_run_le s).
  destruct (whitespace_run s); [done|]. intros [= <-]. lia.
Qed.

(** No rule matches more than what is left of the input, and the
    action of a rule returns the lexeme as the value, but for the rule
    of strings, which matches at least the two quotes and returns what
    is between them. *)
Lemma rules_sound :
  Forall (fun r =>
            (forall s n, Lexer.pattern r s = Some n ->
                         (n <= String.length s)%nat)
            /\ (forall l name v,
                  Lexer.action r l = Some (name, v) ->
                  (name <> STRING_VALUE /\ v = l)
                  \/ (name = STRING_VALUE
                      /\ v = JsString.slice 1 (String.length l - 1) l
                      /\ forall s n, Lexer.pattern r s = Some n ->
                                     (2 <= n)%nat)))
    Lexer.rules.
Proof.
  unfold Lexer.rules.
  repeat apply List.Forall_cons; try apply List.Forall_nil;
    (split;
     [ intros s n H; cbn [Lexer.pattern] in H;
       first [ by apply whitespaceRegex_le in H
             | by apply literal_le in H
             | by apply reserved_le in H
             | by apply nameRegex_le in H
             | apply stringRegex_bounds in H; lia
             | by apply intRegex_le in H
             | by apply floatRegex_le in H ]
     | intros l name v H; cbn [Lexer.action] in H; unfold Lexer.token in H;
       first [ discriminate H
             | injection H as <- <-;
               first [ left; split; [discriminate|reflexivity]
                     | right; split; [reflexivity|split; [reflexivity|]];
                       intros s n Hp; cbn [Lexer.pattern] in Hp;
                       apply stringRegex_bounds in Hp; lia ] ] ]).
Qed.

Lemma scan_in (rs : list Lexer.Rule) (s : string) : forall best n r,
  Lexer.scan rs s best = Some (n, r) ->
  best = Some (n, r) \/ (r ∈ rs /\ Lexer.pattern r s = Some n).
Proof.
  induction rs as [|r0 rs IH]; intros best n r; simpl; [by left|].
  intros H. apply IH in H as [H|[Hin Hp]].
  - destruct (Lexer.pattern r0 s) as [m|] eqn:Hm; [|by left].
    destruct best as [[k rb]|].
    + destruct (k <? m)%nat; [|by left].
      injection H as <- <-. right. split; [left|done].
    + injection H as <- <-. right. split; [left|done].
  - right. split; [by right|done].
Qed.

Lemma substring_app_skip (pre s : string) (a n : nat) :
  substring (String.length pre + a) n (pre +:+ s) = substring a n s.
Proof.
  induction pre as [|c pre IH].
  - by rewrite append_nil_l.
  - rewrite append_cons. exact IH.
Qed.

Lemma substring_substring_0 (s : string) : forall a m n,
  (a + m <= n)%nat ->
  substring a m (substring 0 n s) = substring a m s.
Proof.
  induction s as [|c s IH]; intros a m n Hle.
  - destruct n; destruct a; destruct m; reflexivity.
  - destruct n as [|n].
    + assert (a = 0%nat) as -> by lia. assert (m = 0%nat) as -> by lia.
      reflexivity.
    + destruct a as [|a]; simpl.
      * destruct m as [|m]; [done|]. f_equal.
        apply (IH 0%nat m n). lia.
      * apply IH. lia.
Qed.

Lemma substring_length (s : string) : forall a m,
  (a + m <= String.length s)%nat ->
  String.length (substring a m s) = m.
Proof.
  induction s as [|c s IH]; intros a m Hle; simpl in Hle.
  - assert (a = 0%nat) as -> by lia. assert (m = 0%nat) as -> by lia.
    reflexivity.
  - destruct a as [|a]; simpl.
    + destruct m as [|m]; [done|]. simpl. f_equal. apply (IH 0%nat). lia.
    + apply IH. lia.
Qed.

Lemma lexFrom_step (fuel : nat) (c : ascii) (rest : string) (index : nat) :
  Lexer.lexFrom (S fuel) (String c rest) index
  = match Lexer.scan Lexer.rules (String c rest) None with
    | Some (S n, r) =>
        let lexeme := substring 0 (S n) (String c rest) in
        let index' := (index + S n)%nat in
        let more :=
          Lexer.lexFrom fuel (JsString.drop (S n) (String c rest)) index' in
        match Lexer.action r lexeme with
        | Some (name, v) =>
            mkToken name v (index' - String.length v) index' :: more
        | None => more
        end
    | _ => Lexer.lexFrom fuel rest (S index)
    end.
Proof. reflexivity. Qed.

(** The tokens read from position [length pre] on end behind it and
    lie where they say. *)
Lemma lexFrom_located (fuel : nat) : forall s pre,
  Forall (fun t => (String.length pre < tok_end t)%nat
                   /\ token_located (pre +:+ s) t)
    (Lexer.lexFrom fuel s (String.length pre)).
Proof.
  induction fuel as [|fuel IH]; intros s pre; [constructor|].
  destruct s as [|c rest]; [constructor|].
  rewrite lexFrom_step.
  assert (Hskip : Forall (fun t => (String.length pre < tok_end t)%nat
                            /\ token_located (pre +:+ String c rest) t)
                    (Lexer.lexFrom fuel rest (S (String.length pre)))).
  { specialize (IH rest (pre +:+ String c EmptyString)).
    rewrite append_length, append_assoc in IH. simpl in IH.
    rewrite Nat.add_1_r in IH.
    eapply Forall_impl; [exact IH|]. intros t [Hlt Hloc].
    split; [lia|exact Hloc]. }
  destruct (Lexer.scan Lexer.rules (String c rest) None) as [[[|n] r]|] eqn:Hscan;
    [exact Hskip| |exact Hskip].
  apply scan_in in Hscan as [Hscan|[Hin Hp]]; [done|].
  pose proof rules_sound as Hsound.
  rewrite Forall_forall in Hsound.
  destruct (Hsound r Hin) as [Hbound Haction].
  pose proof (Hbound _ _ Hp) as Hn.
  set (s := String c rest) in *.
  set (lexeme := substring 0 (S n) s).
  assert (Hlexeme : String.length lexeme = S n).
  { subst lexeme. rewrite substring_0_length. lia. }
  assert (Hmore : Forall
            (fun t => (String.length pre + S n < tok_end t)%nat
                      /\ token_located (pre +:+ s) t)
            (Lexer.lexFrom fuel (JsString.drop (S n) s)
               (String.length pre + S n))).
  { specialize (IH (JsString.drop (S n) s) (pre +:+ lexeme)).
    rewrite append_length, Hlexeme, append_assoc in IH.
    subst lexeme. by rewrite <- substring_0_drop in IH. }
  assert (Hrest : Forall
            (fun t => (String.length pre < tok_end t)%nat
                      /\ token_located (pre +:+ s) t)
            (Lexer.lexFrom fuel (JsString.drop (S n) s)
               (String.length pre + S n))).
  { eapply Forall_impl; [exact Hmore|]. intros t [Hlt Hloc].
    split; [lia|exact Hloc]. }
  cbv zeta. fold lexeme.
  destruct (Lexer.action r lexeme) as [[name v]|] eqn:Hact; [|exact Hrest].
  apply List.Forall_cons; [|exact Hrest].
  split; [simpl; lia|].
  unfold token_located. simpl. rewrite append_length.
  destruct (Haction _ _ _ Hact) as [[Hname ->]|(-> & -> & Hmin)].
  - rewrite Hlexeme.
    split; [lia|]. split; [lia|]. split; [|done]. intros _.
    unfold JsString.slice.
    replace (String.length pre + S n - S n)%nat
      with (String.length pre + 0)%nat by lia.
    replace (String.length pre + S n - (String.length pre + 0))%nat
      with (S n) by lia.
    apply substring_app_skip.
  - specialize (Hmin _ _ Hp).
    assert (Hv : JsString.slice 1 (String.length lexeme - 1) lexeme
                 = substring 1 (n - 1) s).
    { unfold JsString.slice. rewrite Hlexeme.
      replace (S n - 1 - 1)%nat with (n - 1)%nat by lia.
      subst lexeme. apply substring_substring_0. lia. }
    assert (Hvl : String.length (substring 1 (n - 1) s) = (n - 1)%nat)
      by (apply substring_length; lia).
    rewrite Hv, Hvl.
    split; [lia|]. split; [lia|]. split; [done|]. intros _.
    split; [lia|].
    unfold JsString.slice.
    replace (String.length pre + S n - (n - 1) - 1)%nat
      with (String.length pre + 1)%nat by lia.
    replace (String.length pre + S n - 1 - (String.length pre + 1))%nat
      with (n - 1)%nat by lia.
    apply substring_app_skip.
Qed.

Lemma lexFrom_ordered (fuel : nat) : forall s pre i j t1 t2,
  (i < j)%nat ->
  Lexer.lexFrom fuel s (String.length pre) !! i = Some t1 ->
  Lexer.lexFrom fuel s (String.length pre) !! j = Some t2 ->
  (tok_end t1 < tok_end t2)%nat.
Proof.
  induction fuel as [|fuel IH]; intros s pre i j t1 t2 Hij; [done|].
  destruct s as [|c rest]; [done|].
  rewrite lexFrom_step.
  assert (Hskip :
            Lexer.lexFrom fuel rest (S (String.length pre)) !! i = Some t1 ->
            Lexer.lexFrom fuel rest (S (String.length pre)) !! j = Some t2 ->
            (tok_end t1 < tok_end t2)%nat).
  { specialize (IH rest (pre +:+ String c EmptyString) i j t1 t2 Hij).
    rewrite append_length in IH. simpl in IH.
    by rewrite Nat.add_1_r in IH. }
  destruct (Lexer.scan Lexer.rules (String c rest) None) as [[[|n] r]|] eqn:Hscan;
    [exact Hskip| |exact Hskip].
  apply scan_in in Hscan as [Hscan|[Hin Hp]]; [done|].
  pose proof rules_sound as Hsound.
  rewrite Forall_forall in Hsound.
  destruct (Hsound r Hin) as [Hbound _].
  pose proof (Hbound _ _ Hp) as Hn.
  set (s := String c rest) in *.
  set (lexeme := substring 0 (S n) s).
  assert (Hlexeme : String.length (pre +:+ lexeme)
                    = (String.length pre + S n)%nat).
  { subst lexeme. rewrite append_length, substring_0_length. lia. }
  cbv zeta. fold lexeme. rewrite <- Hlexeme.
  destruct (Lexer.action r lexeme) as [[name v]|]; [|apply IH; exact Hij].
  destruct j as [|j]; [lia|]. destruct i as [|i].
  - intros [= <-] Hj. simpl.
    pose proof (lexFrom_located fuel (JsString.drop (S n) s) (pre +:+ lexeme))
      as Hloc.
    rewrite Forall_lookup in Hloc. by destruct (Hloc _ _ Hj).
  - simpl. apply IH. lia.
Qed.

(** X17: the tokens of [lexAll] lie in the text where they say, and come
    in the order of the text. Each token ends within the text and
    spans as many characters as its value has; the value of a token
    other than a string is the text from [start] to [end], that of a
    string, which comes without its quotes, the text from [start - 1]
    to [end - 1]; and a later token ends later. *)
Theorem lexAll_located (text : string) :
  Forall (token_located text) (Lexer.lexAll text)
  /\ forall i j t1 t2,
       (i < j)%nat ->
       Lexer.lexAll text !! i = Some t1 ->
       Lexer.lexAll text !! j = Some t2 ->
       (tok_end t1 < tok_end t2)%nat.
Proof.
  unfold Lexer.lexAll. split.
  - pose proof (lexFrom_located (S (String.length text)) text EmptyString)
      as Hloc.
    rewrite append_nil_l in Hloc.
    eapply Forall_impl; [exact Hloc|]. by intros t [_ Ht].
  - apply (lexFrom_ordered _ text EmptyString).
Qed.

Lemma cacheGet_state key this :
  (cacheGet key this).2
  = with_suggestionsCache (LRUCache.get key (suggestionsCache this)).2 this.
Proof.
  unfold cacheGet. by destruct (LRUCache.get key (suggestionsCache this)).
Qed.

(** X18: the page [loadFieldOptions] asks for is the page its [success]
    callback accepts. When [loadFieldOptions] fetches for the field
    under the cursor, the request keeps the cache key; and when the
    answer carries the page asked for (page 1 when none was asked
    for), the callback appends its items to the cached ones, clears
    the loading marks and shows all the items of the entry. *)
Theorem requested_page_accepted this key ctx loadMore data :
  getCurrentFieldOptions this
  = Ret (Some (mkFieldOptions (Some key) ctx None)) ->
  (1 <= LRUCache.capacity (suggestionsCache this))%nat ->
  let cached :=
    default empty_entry (LRUCache.peek key (suggestionsCache this)) in
  (loadMore && has_next cached) || negb (page_loaded cached) = true ->
  let started := state_of (loadFieldOptions loadMore this) in
  exists r,
    request started = Some r
    /\ req_cacheKey r = key
    /\ (data_page data = default 1%Z (req_page r) ->
        exists loaded,
          requestLoaded data started = Normal loaded
          /\ LRUCache.peek key (suggestionsCache loaded)
             = Some {| items := Some (default [] (items cached)
                                      ++ data_items data);
                       page := Some (data_page data);
                       has_next := data_has_next data;
                       entry_loading := false |}
          /\ suggestions loaded
             = map (fun f => suggestion f (String JsString.dquote EmptyString)
                               (String JsString.dquote EmptyString) None)
                 (default [] (items cached) ++ data_items data)
          /\ loading loaded = false
          /\ request loaded = None).
Proof.
  intros Hfo Hcap cached Hfetch started.
  pose proof (loadFieldOptions_requests loadMore this key ctx Hfo Hfetch)
    as Hload.
  fold cached in Hload. subst started. rewrite Hload.
  set (r := mkRequest _ _ _ _) in *.
  set (entry := mkEntry _ _ _ true) in *.
  set (s2 := getJson r _).
  assert (Hfo2 : getCurrentFieldOptions s2
                 = Ret (Some (mkFieldOptions (Some key) ctx None))).
  { rewrite <- Hfo. apply getCurrentFieldOptions_frame;
      subst s2; unfold getJson, cacheSet, cacheGet;
      by destruct (LRUCache.get key (suggestionsCache this)). }
  assert (Hcap2 : (1 <= LRUCache.capacity (suggestionsCache s2))%nat).
  { subst s2. simpl. by rewrite cacheGet_cache, lru_capacity_get. }
  assert (Hpeek2 : LRUCache.peek key (suggestionsCache s2) = Some entry).
  { subst s2. simpl. apply lru_peek_set.
    rewrite cacheGet_cache, lru_capacity_get. exact Hcap. }
  assert (Hr2 : request s2 = Some r) by done.
  clearbody s2.
  destruct (populateFieldOptions_remote false s2 key ctx Hfo2)
    as (s3 & Hpop & _ & _ & _ & Hr3 & _).
  pose proof (populateFieldOptions_peek false s2 key) as Hpeek3.
  pose proof (populateFieldOptions_input false s2) as Hfo3.
  pose proof (populateFieldOptions_capacity false s2) as Hcap3.
  rewrite Hpop in *. cbn [state_of] in *.
  rewrite Hpeek2 in Hpeek3. rewrite Hfo2 in Hfo3.
  exists r. split; [by rewrite Hr3|]. split; [done|].
  intros Hpage.
  assert (Hnext : data_page data = (default 0 (page cached) + 1)%Z).
  { rewrite Hpage. subst r. cbn [req_page].
    destruct (loadMore && has_next cached); [|simpl in *].
    - cbn [default]. unfold page_loaded.
      destruct (page cached) as [p|]; [|reflexivity]. simpl.
      destruct (Z.eqb_spec p 0) as [->|]; reflexivity.
    - apply negb_true_iff in Hfetch. unfold page_loaded in Hfetch.
      destruct (page cached) as [p|]; [|reflexivity]. simpl.
      apply negb_false_iff, Z.eqb_eq in Hfetch. by subst p. }
  unfold requestLoaded. rewrite Hr3, Hr2. cbn [req_cacheKey r].
  unfold loadSuccess.
  pose proof (cacheGet_entry key (with_loading false s3)) as He.
  pose proof (cacheGet_state key (with_loading false s3)) as Hs.
  destruct (cacheGet key (with_loading false s3)) as [c s4].
  cbn [fst snd] in He, Hs. cbn [suggestionsCache with_loading] in He.
  rewrite Hpeek3 in He. cbn [default from_option id] in He. subst c.
  subst entry. cbn [page items has_next].
  rewrite (proj2 (Z.eqb_eq _ _)) by lia. cbn [negb].
  set (fresh := mkEntry _ _ _ false).
  set (s5 := with_loading false (cacheSet key fresh s4)).
  assert (Hfo5 : getCurrentFieldOptions s5
                 = Ret (Some (mkFieldOptions (Some key) ctx None))).
  { rewrite <- Hfo3. apply getCurrentFieldOptions_frame; by subst s5 s4. }
  assert (Hpeek5 : LRUCache.peek key (suggestionsCache s5) = Some fresh).
  { subst s5 s4. simpl. apply lru_peek_set.
    rewrite lru_capacity_get, Hcap3. exact Hcap2. }
  assert (Hl5 : loading s5 = false) by done.
  clearbody s5.
  destruct (populateFieldOptions_remote false s5 key ctx Hfo5)
    as (s6 & Hpop6 & Hsug & _ & _ & _ & Hl6).
  pose proof (populateFieldOptions_peek false s5 key) as Hpeek6.
  rewrite Hpop6 in *. cbn [state_of and_then] in *.
  eexists. split; [reflexivity|].
  cbn [suggestionsCache suggestions loading request with_request].
  split; [by rewrite Hpeek6, Hpeek5|].
  split; [by rewrite Hsug, Hpeek5|].
  split; [by rewrite Hl6|done].
Qed.

Lemma requested_page_accepted_witness :
  let this := Library.engine "title = W" 9 in
  let started := state_of (loadFieldOptions false this) in
  request started
  = Some (mkRequest "lib.book.title" "W" None "lib.book.title|W")
  /\ offered (requestLoaded (mkPage ["War and Peace"; "Waverley"] 1 true)
                started)
     = Some ["War and Peace"; "Waverley"].
Proof.
  intros this started.
  destruct (requested_page_accepted this "lib.book.title|W"
              (mkContext "W" (Some ScopeValue) (Some "lib.book")
                 (Some "title") (Some (mkToken NAME "W" 8 9))
                 [Some "lib.book"])
              false (mkPage ["War and Peace"; "Waverley"] 1 true))
    as (r & Hr & _ & Haccepted).
  - vm_compute. reflexivity.
  - simpl. lia.
  - reflexivity.
  - fold started in Hr, Haccepted.
    assert (Hreq : request started
                   = Some (mkRequest "lib.book.title" "W" None
                             "lib.book.title|W"))
      by (vm_compute; reflexivity).
    split; [exact Hreq|].
    rewrite Hreq in Hr. injection Hr as <-.
    destruct (Haccepted eq_refl) as (loaded & -> & _ & Hsug & _).
    simpl. rewrite Hsug. reflexivity.
Defined.

(** ** [setUrlParams] *)

Lemma split_no_separator (c : ascii) (s : string) :
  Utils.hasChar c s = false -> Js.split c s = [s].
Proof.
  induction s as [|d s IH]; simpl; [done|].
  rewrite (Ascii.eqb_sym c d).
  destruct (Ascii.eqb d c); simpl; [done|].
  intros H. by rewrite (IH H).
Qed.

Lemma split_at_separator (c : ascii) (k x : string) :
  Utils.hasChar c k = false ->
  Js.split c (k +:+ String c x) = k :: Js.split c x.
Proof.
  induction k as [|d k IH]; intros H.
  - rewrite append_nil_l. simpl. by rewrite Ascii.eqb_refl.
  - rewrite append_cons. simpl in *. rewrite (Ascii.eqb_sym c d) in H.
    destruct (Ascii.eqb d c); simpl in *; [done|].
    by rewrite (IH H).
Qed.

Lemma replacePair_absent (key value : string) (l : list string) :
  Forall (fun p => hd EmptyString (Js.split "=" p) <> key) l ->
  Utils.replacePair key value l = None.
Proof.
  induction 1 as [|p l Hp _ IH]; simpl; [done|].
  destruct (String.eqb_spec (hd EmptyString (Js.split "=" p)) key);
    [done|]. by rewrite IH.
Qed.

Lemma param_lookup (k v : string) (params : list (string * string)) :
  NoDup (map fst params) ->
  (k, v) ∈ params ->
  Utils.param k params = v.
Proof.
  induction params as [|[k' v'] params IH]; simpl; intros Hnd Hin.
  - by apply elem_of_nil in Hin.
  - apply NoDup_cons in Hnd as [Hk' Hnd].
    apply elem_of_cons in Hin as [[= -> ->]|Hin].
    + by rewrite String.eqb_refl.
    + destruct (String.eqb_spec k' k) as [->|_]; [|by apply IH].
      destruct Hk'. apply list_elem_of_fmap. by exists (k, v).
Qed.

Lemma concat_separated (sep x : string) (l : list string) :
  String.concat sep (x :: l)
  = x +:+ String.concat EmptyString (map (fun p => sep +:+ p) l).
Proof.
  revert x. induction l as [|y l IH]; intros x.
  - simpl. by rewrite append_empty_r.
  - change (String.concat sep (x :: y :: l))
      with (x +:+ sep +:+ String.concat sep (y :: l)).
    rewrite IH. simpl map.
    destruct (map (fun p => sep +:+ p) l) as [|z m] eqn:Hm.
    + simpl. by rewrite append_empty_r.
    + change (String.concat EmptyString ((sep +:+ y) :: z :: m))
        with ((sep +:+ y) +:+ EmptyString
              +:+ String.concat EmptyString (z :: m)).
      by rewrite append_nil_l, append_assoc.
Qed.

(** The pairs after the [forEach], on a query string that is empty to
    begin with. *)
Lemma setParam_fresh (params : list (string * string)) :
  NoDup (map fst params) ->
  Forall plain_name (map fst params) ->
  forall todo done,
    params = done ++ todo ->
    fold_left (Utils.setParam params) (map fst todo)
      (EmptyString
       :: map (fun '(k, v) => k +:+ "=" +:+ Utils.encodeURI v) done)
    = EmptyString
      :: map (fun '(k, v) => k +:+ "=" +:+ Utils.encodeURI v) params.
Proof.
  intros Hnd Hplain todo.
  induction todo as [|[k v] todo IH]; intros done Hparams.
  - rewrite app_nil_r in Hparams. by subst.
  - simpl. unfold Utils.setParam at 2.
    assert (Hin : (k, v) ∈ params)
      by (subst params; apply elem_of_app; right; left).
    assert (Hk : plain_name k).
    { rewrite Forall_forall in Hplain. apply Hplain.
      apply list_elem_of_fmap. by exists (k, v). }
    destruct Hk as (Henc & Hne & Heq).
    rewrite Henc, (param_lookup k v params Hnd Hin).
    rewrite replacePair_absent.
    + specialize (IH (done ++ [(k, v)])).
      rewrite <- app_assoc in IH. specialize (IH Hparams).
      rewrite map_app in IH. exact IH.
    + apply Forall_forall. intros p Hp.
      apply list_elem_of_In, in_rev, list_elem_of_In in Hp.
      apply elem_of_cons in Hp as [->|Hp]; [simpl; congruence|].
      apply list_elem_of_fmap in Hp as ([k' v'] & -> & Hin').
      assert (Hk' : plain_name k').
      { rewrite Forall_forall in Hplain. apply Hplain.
        apply list_elem_of_fmap. exists (k', v'). split; [done|].
        subst params. apply elem_of_app. by left. }
      destruct Hk' as (_ & _ & Heq').
      change (k' +:+ "=" +:+ Utils.encodeURI v')
        with (k' +:+ String "=" (Utils.encodeURI v')).
      rewrite (split_at_separator "=" k' _ Heq'). simpl.
      intros ->. subst params.
      rewrite map_app in Hnd. simpl in Hnd.
      apply NoDup_app in Hnd as (_ & Hdisj & _).
      apply (Hdisj k).
      * apply list_elem_of_fmap. by exists (k, v').
      * left.
Qed.

Lemma hasChar_encodeURI_step (c : ascii) (rest : string) :
  Utils.hasChar "&" (Utils.encodeURI (String c rest))
  = Ascii.eqb "&" c || Utils.hasChar "&" (Utils.encodeURI rest).
Proof.
  destruct c as [[] [] [] [] [] [] [] []]; reflexivity.
Qed.

(** [encodeURI] neither removes nor adds an ampersand. *)
Lemma hasChar_encodeURI (s : string) :
  Utils.hasChar "&" (Utils.encodeURI s) = Utils.hasChar "&" s.
Proof.
  induction s as [|c s IH]; [done|].
  rewrite hasChar_encodeURI_step. simpl. by rewrite IH.
Qed.

(** X19: on a URL without a query string, [setUrlParams] appends the
    parameters in their order, each as [&name=value] behind a question
    mark, so that the query string starts with an ampersand; this for
    distinct names that [encodeURI] leaves alone, that are not empty and
    hold no equals sign. The values are passed through [encodeURI],
    which keeps an ampersand of a value as it is. *)
Theorem setUrlParams_fresh url params :
  Utils.hasChar "?" url = false ->
  NoDup (map fst params) ->
  Forall plain_name (map fst params) ->
  params <> [] ->
  Utils.setUrlParams url params
  = url +:+ "?"
    +:+ String.concat EmptyString
          (map (fun '(k, v) => "&" +:+ k +:+ "=" +:+ Utils.encodeURI v) params)
  /\ forall k v,
       (k, v) ∈ params ->
       Utils.hasChar "&" (Utils.encodeURI v) = Utils.hasChar "&" v.
Proof.
  intros Hurl Hnd Hplain Hne. split; [|intros; apply hasChar_encodeURI].
  unfold Utils.setUrlParams.
  rewrite (split_no_separator _ _ Hurl).
  cbn [hd tl Js.join String.concat Js.split].
  pose proof (setParam_fresh params Hnd Hplain params [] eq_refl) as Hfold.
  cbn [map] in Hfold. rewrite Hfold.
  unfold Js.join. rewrite concat_separated, append_nil_l, map_map.
  assert (Hmap : map (fun x : string * string =>
                        "&" +:+ (let '(k, v) := x in
                                 k +:+ "=" +:+ Utils.encodeURI v)) params
                 = map (fun '(k, v) => "&" +:+ k +:+ "=" +:+ Utils.encodeURI v)
                     params).
  { apply map_ext. by intros [k v]. }
  rewrite Hmap.
  destruct params as [|[k v] params]; [done|].
  destruct (String.concat EmptyString _) as [|c qs] eqn:Hqs.
  - exfalso. revert Hqs. simpl.
    destruct (map _ params); rewrite ?append_cons; discriminate.
  - reflexivity.
Qed.

Lemma setUrlParams_fresh_witness :
  Utils.setUrlParams "/api/suggestions/"
    [("field", "core.book.name"); ("search", "war & peace"); ("page", "2")]
  = "/api/suggestions/?&field=core.book.name&search=war%20&%20peace&page=2".
Proof.
  destruct (setUrlParams_fresh "/api/suggestions/"
              [("field", "core.book.name"); ("search", "war & peace");
               ("page", "2")]) as [Hurl _].
  - reflexivity.
  - apply (bool_decide_unpack _). reflexivity.
  - repeat (apply List.Forall_cons; [repeat split; discriminate|]).
    apply List.Forall_nil.
  - discriminate.
  - rewrite Hurl. reflexivity.
Defined.

(** X20: [loadFieldOptions] fetches nothing when there is nothing to
    fetch: when the field under the cursor has no remote options, or
    when its first page is cached and no further page is both asked
    for and announced. It then starts no request and leaves the
    loading mark, the suggestions and what the cache holds as they
    were. *)
Theorem loadFieldOptions_idle this loadMore :
  (forall key ctx opts,
     getCurrentFieldOptions this
     = Ret (Some (mkFieldOptions (Some key) ctx opts)) ->
     let cached :=
       default empty_entry (LRUCache.peek key (suggestionsCache this)) in
     page_loaded cached = true /\ loadMore && has_next cached = false) ->
  let this' := state_of (loadFieldOptions loadMore this) in
  request this' = request this
  /\ loading this' = loading this
  /\ suggestions this' = suggestions this
  /\ forall k,
       LRUCache.peek k (suggestionsCache this')
       = LRUCache.peek k (suggestionsCache this).
Proof.
  intros Hidle. unfold loadFieldOptions, evaluating.
  destruct (getCurrentFieldOptions this) as [[[[key|] ctx opts]|]|] eqn:Hfo;
    simpl; try done.
  destruct (Hidle key ctx opts eq_refl) as [Hpage Hmore].
  pose proof (cacheGet_entry key this) as He.
  pose proof (cacheGet_state key this) as Hs.
  destruct (cacheGet key this) as [c s1]. simpl in He, Hs. subst c s1.
  rewrite Hmore, Hpage. simpl.
  repeat split. intros k. apply lru_peek_get.
Qed.

Lemma loadFieldOptions_idle_witness :
  let this := Library.engine "title = W" 9 in
  let cached :=
    with_suggestionsCache
      (LRUCache.set "lib.book.title|W"
         (mkEntry (Some ["War and Peace"]) (Some 1%Z) true false)
         (suggestionsCache this)) this in
  request (state_of (loadFieldOptions false cached)) = None
  /\ request (state_of (loadFieldOptions true cached))
     = Some (mkRequest "lib.book.title" "W" (Some 2%Z) "lib.book.title|W").
Proof.
  intros this cached. split.
  - destruct (loadFieldOptions_idle cached false) as (Hr & _); [|exact Hr].
    intros key ctx opts Hfo.
    assert (Ret (Some (mkFieldOptions (Some key) ctx opts))
            = Ret (Some (mkFieldOptions (Some "lib.book.title|W")
                           (mkContext "W" (Some ScopeValue) (Some "lib.book")
                              (Some "title") (Some (mkToken NAME "W" 8 9))
                              [Some "lib.book"]) None))) as [= -> -> ->]
      by (rewrite <- Hfo; vm_compute; reflexivity).
    split; reflexivity.
  - vm_compute. reflexivity.
Defined.
